(** * The Sequence feature connector of tensorflow_datasets

    A shallow embedding of
    [tensorflow_datasets/core/features/sequence_feature.py] and the
    properties its specification states about it.

    Python values are embedded as the inductive type [value]; raising an
    exception is the left injection of a sum; the methods of the
    [Sequence] class run in a state monad over the object graph they can
    reach (the node's own fields, the wrapped feature's state and a record of
    the calls made to the wrapped encoder). *)

From Stdlib Require Import String.
From Stdlib Require Import List ZArith Lia Bool Arith PeanoNat.
Import ListNotations.

Set Implicit Arguments.
Set Warnings "-register-all".

(** ** Exceptions and the two monads of the embedding *)

Inductive pytype :=
| TNoneType | TInt | TStr | TList | TTuple | TDict
| TNdarray | TNpScalar | TTensorInfo | TDType.

(** The messages of the three [raise] statements of the module carry the
    values they format; every other message is kept as text. *)
Inductive message :=
| MsgNotSequence (got : pytype)
| MsgElemLength (first_len this_len : nat)
| MsgStaticLength (got : nat) (defined : Z)
| MsgText (s : string).

Inductive exn :=
| ValueError (m : message)
| TypeError (m : message)
| KeyError (k : string)
| IndexError (m : message)
| AttributeError (m : message)
| OtherError (m : message).

Definition result (A : Type) : Type := (exn + A)%type.

(** Stateful computations: the state survives an exception, as the side
    effects of a Python call do. *)
Definition M (S A : Type) : Type := S -> result A * S.

Class Monad (m : Type -> Type) := {
  ret : forall A, A -> m A;
  bind : forall A B, m A -> (A -> m B) -> m B;
  raise : forall A, exn -> m A
}.
Arguments ret {m _ A} _.
Arguments bind {m _ A B} _ _.
Arguments raise {m _ A} _.

Declare Scope monad_scope.
Delimit Scope monad_scope with monad.
Notation "x <- c ;; k" := (bind c (fun x => k))
  (at level 61, c at next level, right associativity) : monad_scope.
Notation "c ;;; k" := (bind c (fun _ => k))
  (at level 61, right associativity) : monad_scope.
Open Scope monad_scope.

#[global] Instance result_monad : Monad result := {|
  ret := fun A (a : A) => inr a;
  bind := fun A B (c : result A) (k : A -> result B) =>
            match c with inl e => inl e | inr a => k a end;
  raise := fun A e => inl e
|}.

#[global] Instance M_monad (S : Type) : Monad (M S) := {|
  ret := fun A (a : A) s => (inr a, s);
  bind := fun A B (c : M S A) (k : A -> M S B) s =>
            match c s with
            | (inl e, s') => (inl e, s')
            | (inr a, s') => k a s'
            end;
  raise := fun A e s => (inl e, s)
|}.

(** A pure (exception-only) computation inside any monad. *)
Definition lift {m} `{Monad m} {A} (r : result A) : m A :=
  match r with inl e => raise e | inr a => ret a end.

Definition gets {S A} (f : S -> A) : M S A := fun s => (inr (f s), s).
Definition modify {S} (f : S -> S) : M S unit := fun s => (inr tt, f s).

(** [[f(x) for x in l]], left to right, stopping at the first exception. *)
Definition mapM {m} `{Monad m} {A B} (f : A -> m B) : list A -> m (list B) :=
  fix go (l : list A) : m (list B) :=
    match l with
    | [] => ret []
    | x :: t => y <- f x ;; ys <- go t ;; ret (y :: ys)
    end.

(** ** numpy and TensorFlow data

    What the module needs from numpy's type system is kept abstract: the
    element types, the stored elements, type promotion and casting (used by
    [np.stack] when the stacked arrays differ in element type), and the
    numpy type of a TensorFlow element type. *)
Class Numpy := {
  np_dtype : Type;
  elem : Type;
  tf_dtype : Type;
  as_numpy_dtype : tf_dtype -> np_dtype;
  promote_types : np_dtype -> np_dtype -> np_dtype;
  astype : np_dtype -> np_dtype -> elem -> elem;
  uninitialized : elem;
  np_dtype_eq_dec : forall a b : np_dtype, {a = b} + {a <> b};
  promote_types_same : forall d, promote_types d d = d;
  astype_same : forall d x, astype d d x = x
}.

Section WithNumpy.
Context {NP : Numpy}.

(** An array: element type, shape, and the elements in row-major order. *)
Record ndarray := mk_ndarray {
  arr_dtype : np_dtype;
  arr_shape : list nat;
  arr_data : list elem
}.

(** [feature_lib.TensorInfo]: the description of one tensor.  A dimension
    is an integer or [None]. *)
Record TensorInfo := mk_TensorInfo {
  shape : list (option Z);
  dtype : tf_dtype
}.

Inductive value :=
| VNone
| VInt (z : Z)
| VStr (s : string)
| VList (l : list value)
| VTuple (l : list value)
| VDict (d : list (string * value))
| VArray (a : ndarray)
| VScalar (d : np_dtype) (x : elem)
| VInfo (t : TensorInfo)
| VDType (d : tf_dtype).

Definition type_of (v : value) : pytype :=
  match v with
  | VNone => TNoneType
  | VInt _ => TInt
  | VStr _ => TStr
  | VList _ => TList
  | VTuple _ => TTuple
  | VDict _ => TDict
  | VArray _ => TNdarray
  | VScalar _ _ => TNpScalar
  | VInfo _ => TTensorInfo
  | VDType _ => TDType
  end.

(** Structural induction on values, with the hypotheses on the elements of
    the containers. *)
Section value_induction.
Variable P : value -> Prop.
Hypothesis HNone : P VNone.
Hypothesis HInt : forall z, P (VInt z).
Hypothesis HStr : forall s, P (VStr s).
Hypothesis HList : forall l, Forall P l -> P (VList l).
Hypothesis HTuple : forall l, Forall P l -> P (VTuple l).
Hypothesis HDict : forall d, Forall (fun kv => P (snd kv)) d -> P (VDict d).
Hypothesis HArray : forall a, P (VArray a).
Hypothesis HScalar : forall d x, P (VScalar d x).
Hypothesis HInfo : forall t, P (VInfo t).
Hypothesis HDType : forall d, P (VDType d).

Fixpoint value_rect' (v : value) : P v :=
  match v with
  | VNone => HNone
  | VInt z => HInt z
  | VStr s => HStr s
  | VList l =>
      HList ((fix go (l : list value) : Forall P l :=
                match l with
                | [] => Forall_nil _
                | x :: t => Forall_cons _ (value_rect' x) (go t)
                end) l)
  | VTuple l =>
      HTuple ((fix go (l : list value) : Forall P l :=
                 match l with
                 | [] => Forall_nil _
                 | x :: t => Forall_cons _ (value_rect' x) (go t)
                 end) l)
  | VDict d =>
      HDict ((fix go (d : list (string * value))
                : Forall (fun kv => P (snd kv)) d :=
                match d with
                | [] => Forall_nil _
                | (k, x) :: t => Forall_cons (k, x) (value_rect' x) (go t)
                end) d)
  | VArray a => HArray a
  | VScalar d x => HScalar d x
  | VInfo t => HInfo t
  | VDType d => HDType d
  end.
End value_induction.

(** ** [utils.map_nested] *)

(** Modelled from the spec: [utils.map_nested] lives in
    [tensorflow_datasets/core/utils], outside the module at hand.  The spec
    describes it as the uniform recursive map that applies a transform to
    every leaf and preserves the topology of the named mappings; the
    [dict_only] flag passed by the transposer makes every value that is not a
    mapping a leaf, while without it lists are traversed as well.  The items
    of a mapping are visited in their order. *)
Fixpoint map_nested {m} `{Monad m} (function : value -> m value)
    (dict_only : bool) (data_struct : value) : m value :=
  match data_struct with
  | VDict d =>
      d' <- mapM (fun '(k, v) =>
                    v' <- map_nested function dict_only v ;; ret (k, v')) d ;;
      ret (VDict d')
  | VList l =>
      if dict_only then function data_struct
      else l' <- mapM (map_nested function dict_only) l ;; ret (VList l')
  | _ => function data_struct
  end.

(** Modelled from the spec: [utils.zip_dict] lives in
    [tensorflow_datasets/core/utils], outside the module at hand.  The spec
    has the merge recurse "into matching keys of sibling structures in
    lock-step" and fail when the per-step outputs have divergent topology:
    the keys of all the mappings are collected (each once, in order of first
    occurrence), and every key is looked up in every mapping.  The program
    leaves the order of the keys open and may merge the column of one key
    before it looks up the next: a merge that succeeds returns the same items
    either way, a merge that fails may raise the error of another key or
    column first. *)
Definition dict_items (v : value) : result (list (string * value)) :=
  match v with
  | VDict d => ret d
  | _ => raise (TypeError (MsgText "not a mapping"))
  end.

Definition dict_getitem (v : value) (key : string) : result value :=
  d <- dict_items v ;;
  match find (fun kv => String.eqb (fst kv) key) d with
  | Some kv => ret (snd kv)
  | None => raise (KeyError key)
  end.

Fixpoint dedup (seen : list string) (l : list string) : list string :=
  match l with
  | [] => []
  | k :: t =>
      if in_dec string_dec k seen then dedup seen t
      else k :: dedup (k :: seen) t
  end.

Definition zip_dict (dicts : list value)
  : result (list (string * list value)) :=
  items <- mapM dict_items dicts ;;
  let keys := dedup [] (concat (map (map fst) items)) in
  mapM (fun key =>
          vs <- mapM (fun d => dict_getitem d key) dicts ;; ret (key, vs))
       keys.

(** ** The numpy and Python primitives the module calls *)

(** Number of elements of an array of shape [s]. *)
Definition size (s : list nat) : nat := fold_right Nat.mul 1 s.

(** [a[i, ...]]: the [i]-th slice along the first axis, as an array. *)
Definition slice_at (a : ndarray) (i : nat) : ndarray :=
  let s := tl (arr_shape a) in
  {| arr_dtype := arr_dtype a;
     arr_shape := s;
     arr_data := firstn (size s) (skipn (i * size s) (arr_data a)) |}.

(** [a[i]]: a numpy scalar for a one-dimensional array, a sub-array
    otherwise. *)
Definition ndarray_getitem (a : ndarray) (i : nat) : result value :=
  match arr_shape a with
  | [] => raise (IndexError (MsgText "too many indices for array"))
  | n :: s =>
      if i <? n then
        match s with
        | [] => ret (VScalar (arr_dtype a) (nth i (arr_data a) uninitialized))
        | _ :: _ => ret (VArray (slice_at a i))
        end
      else raise (IndexError (MsgText "index out of bounds"))
  end.

(** [list(a)]: iteration runs along the first axis; an array without axes
    cannot be iterated. *)
Definition ndarray_to_list (a : ndarray) : result (list value) :=
  match arr_shape a with
  | [] => raise (TypeError (MsgText "iteration over a 0-d array"))
  | n :: _ => mapM (ndarray_getitem a) (seq 0 n)
  end.

(** [len(elem)] *)
Definition py_len (elem : value) : result nat :=
  match elem with
  | VList l | VTuple l => ret (length l)
  | VDict d => ret (length d)
  | VStr s => ret (String.length s)
  | VArray a =>
      match arr_shape a with
      | [] => raise (TypeError (MsgText "len() of unsized object"))
      | n :: _ => ret n
      end
  | _ => raise (TypeError (MsgText "object has no len()"))
  end.

(** [elem[i]] for an index [i >= 0] *)
Definition py_getitem (elem : value) (i : nat) : result value :=
  match elem with
  | VList l | VTuple l =>
      match nth_error l i with
      | Some x => ret x
      | None => raise (IndexError (MsgText "index out of range"))
      end
  | VStr s =>
      match String.get i s with
      | Some c => ret (VStr (String c EmptyString))
      | None => raise (IndexError (MsgText "string index out of range"))
      end
  | VDict _ => raise (KeyError EmptyString)
  | VArray a => ndarray_getitem a i
  | VScalar _ _ => raise (IndexError (MsgText "invalid index to scalar variable"))
  | _ => raise (TypeError (MsgText "object is not subscriptable"))
  end.

(** numpy's conversion to an array of the objects that are not arrays
    (numbers, nested lists, ...) is left to numpy. *)
Class NumpyCoerce := {
  asanyarray_object : value -> result ndarray
}.
Context {NC : NumpyCoerce}.

Definition asanyarray (v : value) : result ndarray :=
  match v with
  | VArray a => ret a
  | _ => asanyarray_object v
  end.

(** [np.stack(arrays)] along a new first axis: every input is converted to
    an array, all must have one shape, the result has their common
    (promoted) element type. *)
Definition np_stack (arrays : list value) : result ndarray :=
  arrays <- mapM asanyarray arrays ;;
  match arrays with
  | [] => raise (ValueError (MsgText "need at least one array to stack"))
  | a0 :: rest =>
      if forallb (fun a =>
                    if list_eq_dec Nat.eq_dec (arr_shape a) (arr_shape a0)
                    then true else false) rest
      then
        let dt := fold_left promote_types (map arr_dtype rest) (arr_dtype a0) in
        ret {| arr_dtype := dt;
               arr_shape := length arrays :: arr_shape a0;
               arr_data :=
                 concat (map (fun a => map (astype (arr_dtype a) dt) (arr_data a))
                             arrays) |}
      else raise (ValueError (MsgText "all input arrays must have the same shape"))
  end.

(** [np.empty(shape, dtype)]: the entries are whatever the memory holds. *)
Definition np_empty (shape : list Z) (dtype : np_dtype) : result ndarray :=
  if forallb (fun s => 0 <=? s)%Z shape then
    let shape := map Z.to_nat shape in
    ret {| arr_dtype := dtype;
           arr_shape := shape;
           arr_data := repeat uninitialized (size shape) |}
  else raise (ValueError (MsgText "negative dimensions are not allowed")).

(** ** The module-level helpers *)

Definition stack_arrays (elems : list value) : result value :=
  match elems with
  | [] => raise (IndexError (MsgText "tuple index out of range"))
  | VArray _ :: _ => a <- np_stack elems ;; ret (VArray a)
  | _ :: _ => ret (VList elems)
  end.

(** Returns list from list, tuple or ndarray. *)
Definition np_to_list (elem : value) : result value :=
  match elem with
  | VList _ => ret elem
  | VTuple l => ret (VList l)
  | VArray a => l <- ndarray_to_list a ;; ret (VList l)
  | _ => raise (ValueError (MsgNotSequence (type_of elem)))
  end.

(** The closure [update_length] of [_transpose_dict_list]; its state is the
    cell [length['value']]. *)
Definition update_length (elem : value) : M (option nat) value :=
  length_value <- gets (fun s => s) ;;
  match length_value with
  | None =>
      n <- lift (py_len elem) ;;
      modify (fun _ => Some n) ;;;
      ret elem
  | Some v =>
      n <- lift (py_len elem) ;;
      if negb (v =? n) then raise (ValueError (MsgElemLength v n))
      else ret elem
  end.

(** Transpose a nested dict[list] into a list[nested dict]. *)
Definition _transpose_dict_list (dict_list : value) : result (list value) :=
  (* 1. Unstack numpy arrays into list *)
  dict_list <- map_nested np_to_list true dict_list ;;
  (* 2. Extract the sequence length *)
  let (checked, length_value) := map_nested update_length true dict_list None in
  checked ;;;
  (* 3. Extract each individual elements *)
  match length_value with
  | None =>
      raise (TypeError
               (MsgText "'NoneType' object cannot be interpreted as an integer"))
  | Some n =>
      mapM (fun i => map_nested (fun elem => py_getitem elem i) true dict_list)
           (seq 0 n)
  end.

(** ** TensorFlow: [tf.map_fn] over a nested structure

    A tensor is embedded as an array.  [tf.nest] takes mappings, lists and
    tuples for structure and everything else for a leaf.  [tf.map_fn] unstacks
    every leaf of [elems] along its first axis, applies [fn] to the structure
    of the slices at each position, in order, and stacks the results per leaf
    of the structure [dtype].  The option [parallel_iterations] only bounds
    how many positions may run at once; the value computed is the one of the
    sequential loop. *)
Fixpoint nest_map {m} `{Monad m} (f : value -> m value) (structure : value)
  : m value :=
  match structure with
  | VDict d =>
      d' <- mapM (fun '(k, v) => v' <- nest_map f v ;; ret (k, v')) d ;;
      ret (VDict d')
  | VList l => l' <- mapM (nest_map f) l ;; ret (VList l')
  | VTuple l => l' <- mapM (nest_map f) l ;; ret (VTuple l')
  | _ => f structure
  end.

Fixpoint nest_flatten (structure : value) : list value :=
  match structure with
  | VDict d => flat_map (fun '(_, v) => nest_flatten v) d
  | VList l | VTuple l => flat_map nest_flatten l
  | _ => [structure]
  end.

(** [nest.assert_same_structure], as a test. *)
Fixpoint same_structure (a b : value) : bool :=
  let fix all2 (la lb : list value) : bool :=
    match la, lb with
    | [], [] => true
    | x :: ta, y :: tb => same_structure x y && all2 ta tb
    | _, _ => false
    end in
  match a, b with
  | VDict da, VDict db =>
      (List.length da =? List.length db) &&
      forallb (fun '(k, x) =>
                 match find (fun kv => String.eqb (fst kv) k) db with
                 | Some (_, y) => same_structure x y
                 | None => false
                 end) da
  | VList la, VList lb => all2 la lb
  | VTuple la, VTuple lb => all2 la lb
  | VDict _, _ | VList _, _ | VTuple _, _ => false
  | _, VDict _ | _, VList _ | _, VTuple _ => false
  | _, _ => true
  end.

(** The size a leaf gives to the [TensorArray] it is unstacked into. *)
Definition leading_dim (elem : value) : result nat :=
  match elem with
  | VArray a =>
      match arr_shape a with
      | [] => raise (ValueError
                 (MsgText "elems must be a 1+ dimensional tensor"))
      | n :: _ => ret n
      end
  | _ => raise (TypeError (MsgText "not a tensor"))
  end.

Definition read_slice (i : nat) (elem : value) : result value :=
  match elem with
  | VArray a => ret (VArray (slice_at a i))
  | _ => raise (TypeError (MsgText "not a tensor"))
  end.

(** [TensorArray.stack] of the values written by the loop: they have the
    element type of the array and one shape.  Without any value written the
    result is empty; its further dimensions are the ones the graph was traced
    with, which are not part of this embedding. *)
Definition tensor_stack (dt : np_dtype) (written : list ndarray)
  : result ndarray :=
  match written with
  | [] => ret {| arr_dtype := dt; arr_shape := [0]; arr_data := [] |}
  | t0 :: rest =>
      if forallb (fun t => if np_dtype_eq_dec (arr_dtype t) dt
                           then true else false) written
      then
        if forallb (fun t =>
                      if list_eq_dec Nat.eq_dec (arr_shape t) (arr_shape t0)
                      then true else false) rest
        then ret {| arr_dtype := dt;
                    arr_shape := List.length written :: arr_shape t0;
                    arr_data := List.concat (map arr_data written) |}
        else raise (ValueError (MsgText "inconsistent shapes"))
      else raise (TypeError (MsgText "inconsistent element types"))
  end.

Fixpoint stack_results (dtype : value) (outs : list value) : result value :=
  let fix positions (i : nat) (l : list value) : result (list value) :=
    match l with
    | [] => ret []
    | sub :: t =>
        vs <- mapM (fun o => py_getitem o i) outs ;;
        r <- stack_results sub vs ;;
        rs <- positions (S i) t ;;
        ret (r :: rs)
    end in
  match dtype with
  | VDict d =>
      d' <- mapM (fun '(k, sub) =>
                    vs <- mapM (fun o => dict_getitem o k) outs ;;
                    r <- stack_results sub vs ;;
                    ret (k, r)) d ;;
      ret (VDict d')
  | VList l => l' <- positions 0 l ;; ret (VList l')
  | VTuple l => l' <- positions 0 l ;; ret (VTuple l')
  | VDType dt =>
      written <- mapM asanyarray outs ;;
      a <- tensor_stack (as_numpy_dtype dt) written ;;
      ret (VArray a)
  | _ => raise (TypeError (MsgText "expected a DType"))
  end.

Definition map_fn (fn : value -> result value) (elems : value)
    (dtype : value) : result value :=
  elems <- nest_map (fun e => a <- asanyarray e ;; ret (VArray a)) elems ;;
  dims <- mapM leading_dim (nest_flatten elems) ;;
  match dims with
  | [] => raise (IndexError (MsgText "list index out of range"))
  | n :: rest =>
      if forallb (Nat.eqb n) rest then
        outs <- mapM (fun i =>
                        packed_values <- nest_map (read_slice i) elems ;;
                        packed_fn_values <- fn packed_values ;;
                        if same_structure dtype packed_fn_values
                        then ret packed_fn_values
                        else raise (ValueError
                               (MsgText "the two structures do not match")))
                     (seq 0 n) ;;
        stack_results dtype outs
      else raise (OtherError (MsgText "TensorArray size mismatch"))
  end.

(** ** The wrapped feature and the [Sequence] node *)

(** The interface of [feature_lib.FeatureConnector] as far as [Sequence]
    calls it.  The description, encoding and decoding operations read the
    state [St] of the wrapped feature and have no side effect; the metadata
    hooks may change it.  Every operation may raise. *)
Record FeatureConnector (St : Type) := {
  fc_get_tensor_info : St -> result value;
  fc_get_serialized_info : St -> result value;
  fc_encode_example : St -> value -> result value;
  fc_decode_example : St -> value -> result value;
  fc_save_metadata : list value -> list (string * value) -> M St value;
  fc_load_metadata : list value -> list (string * value) -> M St value
}.

Section WithFeature.
Variable St : Type.

(** The fields [__init__] sets. *)
Record Sequence := {
  _feature : FeatureConnector St;
  _length : option Z
}.

(** [Sequence(feature, length)], for a [feature] that is a connector
    already. *)
Definition __init__ (feature : FeatureConnector St) (length : option Z)
  : Sequence :=
  {| _feature := feature; _length := length |}.

(** What a method of the node can reach: the node itself, the state of the
    wrapped feature, and (for the statements about which calls are made) the
    arguments of the calls to the wrapped [encode_example] so far, latest
    first. *)
Record World := {
  self : Sequence;
  inner : St;
  encoder_calls : list value
}.

Definition self_length : M World (option Z) :=
  gets (fun w => _length (self w)).

(** A call [self._feature.method(...)] of a method without side effect. *)
Definition call_feature {A} (method : FeatureConnector St -> St -> result A)
  : M World A :=
  fun w => (method (_feature (self w)) (inner w), w).

(** A call [self._feature.method(...)] of a method that may change the
    wrapped feature. *)
Definition call_feature_hook {A} (method : FeatureConnector St -> M St A)
  : M World A :=
  fun w =>
    let (r, st) := method (_feature (self w)) (inner w) in
    (r, {| self := self w; inner := st; encoder_calls := encoder_calls w |}).

(** [self.feature.encode_example(sequence_elem)] *)
Definition feature_encode_example (sequence_elem : value) : M World value :=
  modify (fun w => {| self := self w; inner := inner w;
                      encoder_calls := sequence_elem :: encoder_calls w |}) ;;;
  call_feature (fun f st => fc_encode_example f st sequence_elem).

(** Attribute access: the description objects are the ones with a [shape]
    and a [dtype]. *)
Definition get_shape (tensor_info : value) : result (list (option Z)) :=
  match tensor_info with
  | VInfo t => ret (shape t)
  | _ => raise (AttributeError (MsgText "shape"))
  end.

Definition get_dtype (tensor_info : value) : result tf_dtype :=
  match tensor_info with
  | VInfo t => ret (dtype t)
  | _ => raise (AttributeError (MsgText "dtype"))
  end.

(** [feature_lib.TensorInfo.copy_from] *)
Definition copy_from (tensor_info : value) : result TensorInfo :=
  s <- get_shape tensor_info ;;
  d <- get_dtype tensor_info ;;
  ret {| shape := s; dtype := d |}.

Definition get_tensor_info : M World value :=
  (* Add the additional length dimension to every shape *)
  let add_length_dim (tensor_info : value) : M World value :=
    tensor_info <- lift (copy_from tensor_info) ;;
    length <- self_length ;;
    ret (VInfo {| shape := length :: shape tensor_info;
                  dtype := dtype tensor_info |}) in
  tensor_info <- call_feature (@fc_get_tensor_info St) ;;
  map_nested add_length_dim false tensor_info.

Definition get_serialized_info : M World value :=
  (* Add the additional length dimension to every serialized features *)
  let add_length_dim (tensor_info : value) : M World value :=
    length <- self_length ;;
    s <- lift (get_shape tensor_info) ;;
    d <- lift (get_dtype tensor_info) ;;
    ret (VInfo {| shape := length :: s; dtype := d |}) in
  tensor_info <- call_feature (@fc_get_serialized_info St) ;;
  map_nested add_length_dim false tensor_info.

(** [s if s else 0] for a dimension [s]: [None] and [0] are the false
    ones. *)
Definition dim_or_zero (s : option Z) : Z :=
  match s with
  | Some z => if (z =? 0)%Z then 0%Z else z
  | None => 0%Z
  end.

Definition _build_empty_np (serialized_info : value) : result value :=
  s <- get_shape serialized_info ;;
  d <- get_dtype serialized_info ;;
  a <- np_empty (map dim_or_zero s) (as_numpy_dtype d) ;;
  ret (VArray a).

(** Nesting depth of the mappings of a value; it bounds the recursion of
    [_stack_nested]. *)
Fixpoint depth (v : value) : nat :=
  match v with
  | VDict d => S (list_max (map (fun '(_, x) => depth x) d))
  | _ => 0
  end.

Fixpoint _stack_nested_rec (fuel : nat) (sequence_elements : list value)
  : result value :=
  match sequence_elements with
  | [] => raise (IndexError (MsgText "index out of range"))
  | VDict _ :: _ =>
      match fuel with
      | O => raise (OtherError (MsgText "maximum recursion depth exceeded"))
      | S fuel =>
          groups <- zip_dict sequence_elements ;;
          (* Stack along the first dimension *)
          d <- mapM (fun '(k, sub_sequence) =>
                       v <- _stack_nested_rec fuel sub_sequence ;; ret (k, v))
                    groups ;;
          ret (VDict d)
      end
  | _ :: _ => stack_arrays sequence_elements
  end.

(** The recursion descends into the values of the first element, so its
    depth is fuel enough ([_stack_nested_unfold] below). *)
Definition _stack_nested (sequence_elements : list value) : result value :=
  _stack_nested_rec (S (depth (hd VNone sequence_elements))) sequence_elements.

Definition encode_example (example_dict : value) : M World value :=
  (* Convert nested dict[list] into list[nested dict] *)
  sequence_elements <- lift (_transpose_dict_list example_dict) ;;
  (* If length is static, ensure that the given length match *)
  length <- self_length ;;
  match length with
  | Some l =>
      if negb (Z.of_nat (List.length sequence_elements) =? l)%Z
      then raise (ValueError
                    (MsgStaticLength (List.length sequence_elements) l))
      else ret tt
  | None => ret tt
  end ;;;
  (* Empty sequences return empty arrays *)
  match sequence_elements with
  | [] =>
      serialized_info <- get_serialized_info ;;
      map_nested (fun i => lift (_build_empty_np i)) false serialized_info
  | _ :: _ =>
      (* Encode each individual elements *)
      sequence_elements <- mapM feature_encode_example sequence_elements ;;
      (* Then merge the elements back together *)
      lift (_stack_nested sequence_elements)
  end.

(** Modelled from the spec: the property [dtype] is inherited from the base
    class [feature_lib.FeatureConnector], which is outside the module at
    hand.  The spec has the decoder return a structure "whose topology
    matches the tensor-info description": the element types of the
    description of [get_tensor_info], leaf by leaf. *)
Definition self_dtype : M World value :=
  tensor_info <- get_tensor_info ;;
  map_nested (fun t => d <- lift (get_dtype t) ;; ret (VDType d))
             false tensor_info.

Definition decode_example (tfexample_dict : value) : M World value :=
  dtype <- self_dtype ;;
  (* Apply the decoding to each of the individual feature. *)
  call_feature (fun f st =>
                  map_fn (fc_decode_example f st) tfexample_dict dtype).

Definition save_metadata (args : list value) (kwargs : list (string * value))
  : M World value :=
  call_feature_hook (fun f => fc_save_metadata f args kwargs) ;;;
  ret VNone.

Definition load_metadata (args : list value) (kwargs : list (string * value))
  : M World value :=
  call_feature_hook (fun f => fc_load_metadata f args kwargs) ;;;
  ret VNone.

End WithFeature.
End WithNumpy.

(** ** Vocabulary of the statements: topology, leaves, descriptions *)

Section Vocabulary.
Context {NP : Numpy} {NC : NumpyCoerce}.

(** The topology of a nested structure: its mappings and their keys. *)
Inductive topo :=
| TLeaf
| TNode (items : list (string * topo)).

Fixpoint topology (v : value) : topo :=
  match v with
  | VDict d => TNode (map (fun '(k, x) => (k, topology x)) d)
  | _ => TLeaf
  end.

Definition lookup (key : string) (d : list (string * value)) : option value :=
  match find (fun kv => String.eqb (fst kv) key) d with
  | Some kv => Some (snd kv)
  | None => None
  end.

(** The leaf at the end of a path of keys, if the path ends on a leaf. *)
Fixpoint leaf_at (path : list string) (v : value) : option value :=
  match path, v with
  | [], VDict _ => None
  | [], _ => Some v
  | k :: rest, VDict d =>
      match lookup k d with
      | Some x => leaf_at rest x
      | None => None
      end
  | _ :: _, _ => None
  end.

(** The leaves of a structure, in the order [map_nested] visits them with
    [dict_only=True]. *)
Fixpoint leaves (v : value) : list value :=
  match v with
  | VDict d => flat_map (fun '(_, x) => leaves x) d
  | _ => [v]
  end.

(** A transform of the leaves of a structure. *)
Fixpoint map_leaves (g : value -> value) (v : value) : value :=
  match v with
  | VDict d => VDict (map (fun '(k, x) => (k, map_leaves g x)) d)
  | _ => g v
  end.

Definition is_dict (v : value) : bool :=
  match v with VDict _ => true | _ => false end.

(** The length check of [update_length] over the lengths of the leaves, in
    order, from the content [cur] of the cell. *)
Fixpoint check_lengths (cur : option nat) (lens : list nat)
  : exn + option nat :=
  match lens with
  | [] => inr cur
  | n :: t =>
      match cur with
      | None => check_lengths (Some n) t
      | Some v =>
          if v =? n then check_lengths cur t
          else inl (ValueError (MsgElemLength v n))
      end
  end.

(** The elements of a leaf that [np_to_list] accepts. *)
Definition items_of (elem : value) : list value :=
  match np_to_list elem with
  | inr (VList l) => l
  | _ => []
  end.

(** The leaves [np_to_list] turns into a list: lists, tuples, and arrays
    with at least one axis. *)
Definition is_sequence_leaf (v : value) : bool :=
  match v with
  | VList _ | VTuple _ => true
  | VArray a => match arr_shape a with [] => false | _ :: _ => true end
  | _ => false
  end.

(** The record of position [i]: at every leaf, the [i]-th element of the
    leaf's sequence. *)
Definition step_record (example : value) (i : nat) : value :=
  map_leaves (fun x => nth i (items_of x) VNone) example.

Definition transposed (example : value) (n : nat)
  : list value :=
  map (step_record example) (seq 0 n).

(** The size of a declared dimension once the unknown ones are collapsed
    to 0. *)
Definition collapse (d : option Z) : nat :=
  match d with
  | Some z => Z.to_nat z
  | None => 0
  end.

(** The empty array of a description: its shape with the unknown dimensions
    collapsed, its element type, no element. *)
Definition empty_array (t : TensorInfo) : ndarray :=
  {| arr_dtype := as_numpy_dtype (dtype t);
     arr_shape := map collapse (shape t);
     arr_data := [] |}.

Definition known_dims_nonneg (t : TensorInfo) : Prop :=
  Forall (fun d => match d with Some z => (0 <= z)%Z | None => True end)
         (shape t).

(** The signature of the outputs of an encoder or decoder: which keys, and
    at every leaf either arrays of one shape and element type or values that
    are neither arrays nor mappings. *)
Inductive sig :=
| SArray (s : list nat) (d : np_dtype)
| SRaw
| SDict (items : list (string * sig)).

Section sig_induction.
Variable P : sig -> Prop.
Hypothesis HArray : forall s d, P (SArray s d).
Hypothesis HRaw : P SRaw.
Hypothesis HDict : forall items, Forall (fun it => P (snd it)) items ->
                                 P (SDict items).

Fixpoint sig_rect' (t : sig) : P t :=
  match t with
  | SArray s d => HArray s d
  | SRaw => HRaw
  | SDict items =>
      HDict ((fix go (items : list (string * sig))
                : Forall (fun it => P (snd it)) items :=
                match items with
                | [] => Forall_nil _
                | (k, t) :: r => Forall_cons (k, t) (sig_rect' t) (go r)
                end) items)
  end.
End sig_induction.

(** A value of a signature.  An array holds as many elements as its shape
    says. *)
Inductive has_sig : sig -> value -> Prop :=
| has_sig_array s d a :
    arr_shape a = s -> arr_dtype a = d -> length (arr_data a) = size s ->
    has_sig (SArray s d) (VArray a)
| has_sig_raw v :
    type_of v <> TNdarray -> type_of v <> TDict -> has_sig SRaw v
| has_sig_dict items d :
    Forall2 (fun it kv => fst it = fst kv /\ has_sig (snd it) (snd kv))
            items d ->
    has_sig (SDict items) (VDict d).

(** No key occurs twice in a mapping. *)
Inductive wf_sig : sig -> Prop :=
| wf_sig_array s d : wf_sig (SArray s d)
| wf_sig_raw : wf_sig SRaw
| wf_sig_dict items :
    NoDup (map fst items) -> Forall (fun it => wf_sig (snd it)) items ->
    wf_sig (SDict items).

(** The values under one key, step by step. *)
Definition column (key : string) (steps : list value) : list value :=
  map (fun v =>
         match v with
         | VDict d => match lookup key d with Some x => x | None => VNone end
         | _ => VNone
         end) steps.

(** [out] is the merge of the per-step values [steps] of signature [t]: at
    an array leaf, one array with the number of steps as first dimension
    whose slice at each position is the value of that step; at another leaf,
    the plain list of the values; at a mapping, the same keys over the merges
    of the columns. *)
Inductive stacked : sig -> list value -> value -> Prop :=
| stacked_array s d steps a :
    arr_shape a = length steps :: s -> arr_dtype a = d ->
    (forall i, i < length steps ->
               nth_error steps i = Some (VArray (slice_at a i))) ->
    stacked (SArray s d) steps (VArray a)
| stacked_raw steps : stacked SRaw steps (VList steps)
| stacked_dict items steps d :
    Forall2 (fun it kv =>
               fst it = fst kv /\
               stacked (snd it) (column (fst it) steps) (snd kv))
            items d ->
    stacked (SDict items) steps (VDict d).

(** Signatures all of whose leaves are arrays. *)
Inductive array_sig : sig -> Prop :=
| array_sig_array s d : array_sig (SArray s d)
| array_sig_dict items :
    Forall (fun it => array_sig (snd it)) items -> array_sig (SDict items).

(** Number of leaves of a signature. *)
Fixpoint sig_leaves (t : sig) : nat :=
  match t with
  | SDict items => list_sum (map (fun '(_, t) => sig_leaves t) items)
  | _ => 1
  end.

(** The description [info] declares the keys and the element types of the
    signature [t]. *)
Inductive describes : value -> sig -> Prop :=
| describes_leaf ti s :
    describes (VInfo ti) (SArray s (as_numpy_dtype (dtype ti)))
| describes_dict d items :
    Forall2 (fun kv it => fst kv = fst it /\ describes (snd kv) (snd it))
            d items ->
    describes (VDict d) (SDict items).

Fixpoint topo_of (t : sig) : topo :=
  match t with
  | SDict items => TNode (map (fun '(k, t) => (k, topo_of t)) items)
  | _ => TLeaf
  end.

(** A description: mappings over [TensorInfo] leaves. *)
Fixpoint is_description (v : value) : bool :=
  match v with
  | VInfo _ => true
  | VDict d => forallb (fun '(_, x) => is_description x) d
  | _ => false
  end.

(** A transform of the leaves of a description. *)
Fixpoint map_description (g : TensorInfo -> value) (v : value) : value :=
  match v with
  | VInfo t => g t
  | VDict d => VDict (map (fun '(k, x) => (k, map_description g x)) d)
  | _ => v
  end.

(** A function without side effect, as a stateful one. *)
Definition lifted {S A B} (f : A -> result B) : A -> M S B :=
  fun x s => (f x, s).

(** [add_length_dim], as a transform of descriptions. *)
Definition with_length (length : option Z) (t : TensorInfo) : value :=
  VInfo {| shape := length :: shape t; dtype := dtype t |}.

(** A sequence leaf after [np_to_list]. *)
Definition coerced (x : value) : value := VList (items_of x).

(** [a[i]] as a value, for [i] within the first axis. *)
Definition array_item (a : ndarray) (i : nat) : value :=
  match tl (arr_shape a) with
  | [] => VScalar (arr_dtype a) (nth i (arr_data a) uninitialized)
  | _ :: _ => VArray (slice_at a i)
  end.

(** The static length, if any, agrees with the realized one. *)
Definition length_ok {St} (w : World St) (n : nat) : Prop :=
  match _length (self w) with
  | Some l => l = Z.of_nat n
  | None => True
  end.

(** A computation that leaves the fields of the node as they were. *)
Definition keeps_self {St A} (c : M (World St) A) : Prop :=
  forall w, self (snd (c w)) = self w.

(** The stack of arrays of shape [s] and element type [d]. *)
Definition stack_of (d : np_dtype) (s : list nat) (arrays : list ndarray)
  : ndarray :=
  {| arr_dtype := d;
     arr_shape := length arrays :: s;
     arr_data := concat (map arr_data arrays) |}.

(** The items of a mapping against the items of a signature, in order. *)
Definition sig_items (items : list (string * sig)) (d : list (string * value))
  : Prop :=
  Forall2 (fun it kv => fst it = fst kv /\ has_sig (snd it) (snd kv)) items d.

(** The conversion [tf.map_fn] applies to every leaf of [elems]. *)
Definition to_tensor (e : value) : result value :=
  a <- asanyarray e ;; ret (VArray a).

(** The structure of element types of a description, as [self.dtype]
    computes it. *)
Definition dtypes_of (info : value) : value :=
  map_description (fun t => VDType (dtype t)) info.

(** The value at the end of a path of keys, whatever it is. *)
Fixpoint at_path (path : list string) (v : value) : option value :=
  match path, v with
  | [], _ => Some v
  | k :: rest, VDict d =>
      match lookup k d with
      | Some x => at_path rest x
      | None => None
      end
  | _ :: _, _ => None
  end.

(** No mapping of the structure has a key twice, as for every Python
    dict. *)
Inductive unique_keys : value -> Prop :=
| unique_keys_leaf v : is_dict v = false -> unique_keys v
| unique_keys_dict d :
    NoDup (map fst d) -> Forall (fun kv => unique_keys (snd kv)) d ->
    unique_keys (VDict d).

(** A value that is neither an array nor a mapping. *)
Definition is_raw (v : value) : Prop :=
  type_of v <> TNdarray /\ type_of v <> TDict.

(** ** The instance dictionary and pickling

    [__getstate__] and [__setstate__] work on [self.__dict__], a dict from
    attribute names to attributes.  A dict keeps its items in insertion
    order: assigning to a key that is present keeps its place, a new key goes
    to the end; deleting a key that is absent raises [KeyError]. *)
Inductive attribute (St : Type) :=
| AFeature (f : FeatureConnector St)
| AValue (v : value).

Fixpoint dict_setitem {V} (key : string) (v : V) (d : list (string * V))
  : list (string * V) :=
  match d with
  | [] => [(key, v)]
  | (k, x) :: t =>
      if String.eqb k key then (k, v) :: t else (k, x) :: dict_setitem key v t
  end.

Fixpoint dict_delitem {V} (key : string) (d : list (string * V))
  : result (list (string * V)) :=
  match d with
  | [] => raise (KeyError key)
  | (k, x) :: t =>
      if String.eqb k key then ret t
      else t' <- dict_delitem key t ;; ret ((k, x) :: t')
  end.

(** [d.update(other)] *)
Definition dict_update {V} (d other : list (string * V))
  : list (string * V) :=
  fold_left (fun acc kv => dict_setitem (fst kv) (snd kv) acc) other d.

(** [__getstate__]: the result is a copy, [self.__dict__] stays as it is. *)
Definition __getstate__ {St} (self_dict : list (string * attribute St))
  : list (string * attribute St) :=
  let state := self_dict in
  dict_setitem "__getattr__"%string (AValue St (VInt 0)) state.

(** [__setstate__]: returns the new [self.__dict__] and the dict [state] as
    the call leaves it. *)
Definition __setstate__ {St} (self_dict state : list (string * attribute St))
  : result (list (string * attribute St) * list (string * attribute St)) :=
  state <- dict_delitem "__getattr__"%string state ;;
  ret (dict_update self_dict state, state).

(** The entries [__init__] itself makes in the dictionary of a node, and the
    node of a dictionary. *)
Definition length_attribute (length : option Z) : value :=
  match length with
  | Some l => VInt l
  | None => VNone
  end.

Definition instance_dict {St} (node : Sequence St)
  : list (string * attribute St) :=
  [("_feature"%string, AFeature (_feature node));
   ("_length"%string, AValue St (length_attribute (_length node)))].

Definition attribute_of {St} (key : string) (d : list (string * attribute St))
  : option (attribute St) :=
  match find (fun kv => String.eqb (fst kv) key) d with
  | Some kv => Some (snd kv)
  | None => None
  end.

Definition node_of_dict {St} (d : list (string * attribute St))
  : option (Sequence St) :=
  match attribute_of "_feature" d, attribute_of "_length" d with
  | Some (AFeature f), Some (AValue _ (VInt l)) =>
      Some {| _feature := f; _length := Some l |}
  | Some (AFeature f), Some (AValue _ VNone) =>
      Some {| _feature := f; _length := None |}
  | _, _ => None
  end.

(** A [Sequence] node is a feature connector itself and can be wrapped in
    turn: its operations, run on the state of the feature it wraps. *)
Definition as_feature {St} (node : Sequence St) : FeatureConnector St :=
  let world st := {| self := node; inner := st; encoder_calls := [] |} in
  {| fc_get_tensor_info := fun st => fst (get_tensor_info (world st));
     fc_get_serialized_info := fun st => fst (get_serialized_info (world st));
     fc_encode_example := fun st x => fst (encode_example x (world st));
     fc_decode_example := fun st x => fst (decode_example x (world st));
     fc_save_metadata := fun args kwargs st =>
       let (r, w) := save_metadata args kwargs (world st) in (r, inner w);
     fc_load_metadata := fun args kwargs st =>
       let (r, w) := load_metadata args kwargs (world st) in (r, inner w) |}.

End Vocabulary.

(** ** A concrete numpy, wrapped feature and node

    Three element types ordered by promotion, integer payloads, and a
    wrapped feature that describes one tensor of two integers under the key
    [frame] and encodes and decodes by the identity. *)

Inductive example_dtype := uint8 | int64 | float64.

Definition example_dtype_eq_dec (a b : example_dtype) : {a = b} + {a <> b}.
Proof. decide equality. Defined.

Definition example_promote (a b : example_dtype) : example_dtype :=
  match a, b with
  | float64, _ | _, float64 => float64
  | int64, _ | _, int64 => int64
  | uint8, uint8 => uint8
  end.

Definition example_promote_same (d : example_dtype) : example_promote d d = d :=
  match d with
  | uint8 => eq_refl
  | int64 => eq_refl
  | float64 => eq_refl
  end.

Definition example_numpy : Numpy := {|
  np_dtype := example_dtype;
  elem := Z;
  tf_dtype := example_dtype;
  as_numpy_dtype := fun d => d;
  promote_types := example_promote;
  astype := fun _ _ x => x;
  uninitialized := 0%Z;
  np_dtype_eq_dec := example_dtype_eq_dec;
  promote_types_same := example_promote_same;
  astype_same := fun _ _ => eq_refl
|}.

Section Concrete.
#[local] Existing Instance example_numpy.

(** numpy scalars and Python integers become arrays without axes. *)
Definition example_coerce : NumpyCoerce := {|
  asanyarray_object := fun v =>
    match v with
    | VScalar d x => inr (mk_ndarray d [] [x])
    | VInt z => inr (mk_ndarray int64 [] [z])
    | _ => inl (TypeError (MsgText "unsupported object"))
    end
|}.
#[local] Existing Instance example_coerce.

Definition frame (a b : Z) : ndarray :=
  {| arr_dtype := int64; arr_shape := [2]; arr_data := [a; b] |}.

Definition example_info : value :=
  VDict [("frame"%string, VInfo {| shape := [Some 2%Z]; dtype := int64 |})].

Definition example_feature : FeatureConnector unit := {|
  fc_get_tensor_info := fun _ => inr example_info;
  fc_get_serialized_info := fun _ => inr example_info;
  fc_encode_example := fun _ v => inr v;
  fc_decode_example := fun _ v => inr v;
  fc_save_metadata := fun _ _ st => (inr VNone, st);
  fc_load_metadata := fun _ _ st => (inr VNone, st)
|}.

Definition example_world (length : option Z) : World unit :=
  {| self := __init__ example_feature length;
     inner := tt;
     encoder_calls := [] |}.

(** Two frames, given as one list per key, and the records they transpose
    to. *)
Definition two_frames : value :=
  VDict [("frame"%string, VList [VArray (frame 1 2); VArray (frame 3 4)])].

Definition two_records : list value :=
  [VDict [("frame"%string, VArray (frame 1 2))];
   VDict [("frame"%string, VArray (frame 3 4))]].

Definition frame_sig : sig :=
  SDict [("frame"%string, SArray [2] int64)].

Definition no_frame : value := VDict [("frame"%string, VList [])].

(** Leaves of lengths 3 and 5. *)
Definition uneven : value :=
  VDict [("action"%string, VList [VInt 0; VInt 1; VInt 0]);
         ("frame"%string, VTuple [VInt 1; VInt 2; VInt 3; VInt 4; VInt 5])].

(** A leaf that is a number. *)
Definition with_number : value :=
  VDict [("action"%string, VList [VInt 0; VInt 1]);
         ("frame"%string, VInt 7)].

(** Arrays of two and of three elements. *)
Definition ragged : list value :=
  [VArray (frame 1 2);
   VArray {| arr_dtype := int64; arr_shape := [3]; arr_data := [5; 6; 7]%Z |}].

(** An array without axes. *)
Definition zero_d : value :=
  VArray {| arr_dtype := int64; arr_shape := []; arr_data := [7%Z] |}.

(** Two leaves of three raw values each, one of them a tuple. *)
Definition labels : value :=
  VDict [("action"%string, VList [VInt 0; VInt 1; VInt 0]);
         ("reward"%string, VTuple [VInt 5; VInt 6; VInt 7])].

(** A feature whose encoder accepts arrays only. *)
Definition strict_feature : FeatureConnector unit := {|
  fc_get_tensor_info := fun _ => inr example_info;
  fc_get_serialized_info := fun _ => inr example_info;
  fc_encode_example := fun _ v =>
    match v with
    | VArray _ => inr v
    | _ => inl (ValueError (MsgText "not an array"))
    end;
  fc_decode_example := fun _ v => inr v;
  fc_save_metadata := fun _ _ st => (inr VNone, st);
  fc_load_metadata := fun _ _ st => (inr VNone, st)
|}.

Definition strict_world : World unit :=
  {| self := __init__ strict_feature None;
     inner := tt;
     encoder_calls := [] |}.

(** A two by two array. *)
Definition matrix : ndarray :=
  {| arr_dtype := int64; arr_shape := [2; 2]; arr_data := [1; 2; 3; 4]%Z |}.

(** An array of three elements. *)
Definition triple : ndarray :=
  {| arr_dtype := int64; arr_shape := [3]; arr_data := [0; 1; 2]%Z |}.

(** A feature that encodes a frame by adding one to every element and
    decodes by doubling every element into floats. *)
Definition on_frame (f : ndarray -> ndarray) (v : value) : result value :=
  match v with
  | VDict [(k, VArray a)] => inr (VDict [(k, VArray (f a))])
  | _ => inl (ValueError (MsgText "not a frame record"))
  end.

Definition codec_info : value :=
  VDict [("frame"%string, VInfo {| shape := [Some 2%Z]; dtype := float64 |})].

Definition codec_feature : FeatureConnector unit := {|
  fc_get_tensor_info := fun _ => inr codec_info;
  fc_get_serialized_info := fun _ => inr example_info;
  fc_encode_example := fun _ =>
    on_frame (fun a => {| arr_dtype := int64; arr_shape := arr_shape a;
                          arr_data := map (Z.add 1) (arr_data a) |});
  fc_decode_example := fun _ =>
    on_frame (fun a => {| arr_dtype := float64; arr_shape := arr_shape a;
                          arr_data := map (Z.mul 2) (arr_data a) |});
  fc_save_metadata := fun _ _ st => (inr VNone, st);
  fc_load_metadata := fun _ _ st => (inr VNone, st)
|}.

Definition codec_world : World unit :=
  {| self := __init__ codec_feature None;
     inner := tt;
     encoder_calls := [] |}.

Definition encoded_records : list value :=
  [VDict [("frame"%string, VArray (frame 2 3))];
   VDict [("frame"%string, VArray (frame 4 5))]].

Definition decoded_records : list value :=
  [VDict [("frame"%string,
           VArray {| arr_dtype := float64; arr_shape := [2];
                     arr_data := [4; 6]%Z |})];
   VDict [("frame"%string,
           VArray {| arr_dtype := float64; arr_shape := [2];
                     arr_data := [8; 10]%Z |})]].

Definition float_sig : sig :=
  SDict [("frame"%string, SArray [2] float64)].

(** A feature of labels: the encoder turns a label into its index, an
    integer; the decoder returns what it is given. *)
Definition label_info : value :=
  VDict [("label"%string, VInfo {| shape := []; dtype := int64 |})].

Definition label_index (s : string) : result value :=
  if String.eqb s "a" then inr (VInt 0)
  else if String.eqb s "b" then inr (VInt 1)
  else inl (ValueError (MsgText "unknown label")).

Definition label_feature : FeatureConnector unit := {|
  fc_get_tensor_info := fun _ => inr label_info;
  fc_get_serialized_info := fun _ => inr label_info;
  fc_encode_example := fun _ v =>
    match v with
    | VDict [(k, VStr s)] => i <- label_index s ;; ret (VDict [(k, i)])
    | _ => inl (ValueError (MsgText "not a label record"))
    end;
  fc_decode_example := fun _ v => inr v;
  fc_save_metadata := fun _ _ st => (inr VNone, st);
  fc_load_metadata := fun _ _ st => (inr VNone, st)
|}.

Definition label_world : World unit :=
  {| self := __init__ label_feature None;
     inner := tt;
     encoder_calls := [] |}.

Definition three_labels : value :=
  VDict [("label"%string, VList [VStr "a"; VStr "b"; VStr "a"])].

Definition three_label_records : list value :=
  [VDict [("label"%string, VStr "a")];
   VDict [("label"%string, VStr "b")];
   VDict [("label"%string, VStr "a")]].

End Concrete.

(** ** Properties *)

Section Properties.
Context {NP : Numpy} {NC : NumpyCoerce}.
Variable St : Type.

(** *** Traversals of descriptions *)

Lemma mapM_M_pure {S A B} (f : A -> M S B) (g : A -> B) (l : list A) (s : S) :
  Forall (fun x => f x s = (inr (g x), s)) l ->
  mapM f l s = (inr (map g l), s).
Proof.
  induction 1 as [|x t Hx _ IH]; cbn; [reflexivity|].
  rewrite Hx. cbn in IH |- *. rewrite IH. reflexivity.
Qed.

Lemma map_nested_description {S} (f : value -> M S value)
    (g : TensorInfo -> value) (s : S) :
  forall v, is_description v = true ->
  (forall t, In (VInfo t) (leaves v) -> f (VInfo t) s = (inr (g t), s)) ->
  map_nested f false v s = (inr (map_description g v), s).
Proof.
  intros v. induction v using value_rect'; cbn; try discriminate.
  - intros Hd Hf. rewrite forallb_forall in Hd.
    rewrite (mapM_M_pure _ (fun '(k, x) => (k, map_description g x))).
    + reflexivity.
    + rewrite Forall_forall in *. intros [k x] Hin. cbn.
      assert (Hx : forall t, In (VInfo t) (leaves x) ->
                             f (VInfo t) s = (inr (g t), s)).
      { intros t Ht. apply Hf. apply in_flat_map. exists (k, x). auto. }
      pose proof (H _ Hin (Hd _ Hin) Hx) as E. cbn in E. rewrite E.
      reflexivity.
  - intros _ Hf. apply Hf. now left.
Qed.

Lemma topology_map_description (g : TensorInfo -> value) (v : value) :
  (forall t, topology (g t) = TLeaf) ->
  is_description v = true ->
  topology (map_description g v) = topology v.
Proof.
  intros Hg. induction v using value_rect'; cbn; try discriminate.
  - intros Hd. rewrite forallb_forall in Hd. f_equal.
    rewrite map_map. apply map_ext_in. intros [k x] Hin.
    rewrite Forall_forall in H. pose proof (H _ Hin (Hd _ Hin)) as E.
    cbn in E. rewrite E. reflexivity.
  - intros _. apply Hg.
Qed.

Lemma lookup_map (h : value -> value) k d :
  lookup k (map (fun '(k, x) => (k, h x)) d) = option_map h (lookup k d).
Proof.
  unfold lookup. induction d as [|[k' x] d IH]; cbn; [reflexivity|].
  destruct (String.eqb k' k); [reflexivity | exact IH].
Qed.

Lemma lookup_In k d x : lookup k d = Some x -> In (k, x) d.
Proof.
  unfold lookup. destruct (find _ d) as [[k' y]|] eqn:E; [|discriminate].
  intros [= <-]. apply find_some in E. destruct E as [Hin Hk].
  cbn in Hk. apply String.eqb_eq in Hk. subst. exact Hin.
Qed.

Lemma leaf_at_map_description (g : TensorInfo -> value) path v t :
  (forall t, topology (g t) = TLeaf) ->
  is_description v = true ->
  leaf_at path v = Some (VInfo t) ->
  leaf_at path (map_description g v) = Some (g t).
Proof.
  intros Hg. revert v. induction path as [|k rest IH]; intros v Hd.
  - destruct v; cbn; try discriminate. intros [= ->].
    specialize (Hg t). destruct (g t); cbn in Hg; try discriminate; reflexivity.
  - destruct v; cbn; try discriminate.
    rewrite lookup_map. destruct (lookup k d) as [x|] eqn:E; [|discriminate].
    cbn. apply IH. cbn in Hd. rewrite forallb_forall in Hd.
    apply (Hd (k, x)). apply lookup_In. exact E.
Qed.

Lemma get_tensor_info_eq (w : World St) info :
  fc_get_tensor_info (_feature (self w)) (inner w) = inr info ->
  is_description info = true ->
  get_tensor_info w
  = (inr (map_description (with_length (_length (self w))) info), w).
Proof.
  intros Hinfo Hd. unfold get_tensor_info, call_feature. cbn.
  rewrite Hinfo. apply map_nested_description; [exact Hd|].
  intros t _. reflexivity.
Qed.

Lemma get_serialized_info_eq (w : World St) info :
  fc_get_serialized_info (_feature (self w)) (inner w) = inr info ->
  is_description info = true ->
  get_serialized_info w
  = (inr (map_description (with_length (_length (self w))) info), w).
Proof.
  intros Hinfo Hd. unfold get_serialized_info, call_feature. cbn.
  rewrite Hinfo. apply map_nested_description; [exact Hd|].
  intros t _. reflexivity.
Qed.

(** *** Traversals with [dict_only=True] *)

Lemma mapM_result_M {A B} (F : A -> M unit B) (f : A -> result B)
    (l : list A) :
  Forall (fun x => F x tt = (f x, tt)) l ->
  mapM F l tt = (mapM f l, tt).
Proof.
  induction 1 as [|x t Hx _ IH]; cbn; [reflexivity|].
  rewrite Hx. destruct (f x); cbn; [reflexivity|].
  cbn in IH. rewrite IH. destruct (mapM f t); reflexivity.
Qed.

Lemma mapM_app_M {S A B} (f : A -> M S B) (l1 l2 : list A) (s : S) :
  mapM f (l1 ++ l2) s =
  match mapM f l1 s with
  | (inl e, s') => (inl e, s')
  | (inr ys, s') =>
      match mapM f l2 s' with
      | (inl e, s'') => (inl e, s'')
      | (inr zs, s'') => (inr (ys ++ zs), s'')
      end
  end.
Proof.
  revert s. induction l1 as [|x t IH]; intros s; cbn.
  - destruct (mapM f l2 s) as [[e|zs] s']; reflexivity.
  - destruct (f x s) as [[e|y] s1]; [reflexivity|].
    cbn in IH. rewrite IH.
    destruct (mapM f t s1) as [[e|ys] s2]; [reflexivity|].
    destruct (mapM f l2 s2) as [[e|zs] s3]; reflexivity.
Qed.

(** A traversal fails exactly when the function fails on a leaf, at the
    first such leaf in order, with the state reached there. *)
Lemma map_nested_leaves {S} (f : value -> M S value) (v : value) (st : S) :
  match mapM f (leaves v) st with
  | (inl e, st') => map_nested f true v st = (inl e, st')
  | (inr _, st') => exists v', map_nested f true v st = (inr v', st')
  end.
Proof.
  revert st. induction v using value_rect'; intros st;
    try (cbn; destruct (f _ st) as [[e|y] st']; [reflexivity | eauto]).
  cbn [leaves map_nested].
  assert (G : forall st,
              match mapM f (flat_map (fun '(_, x) => leaves x) d) st with
              | (inl e, st') =>
                  mapM (fun '(k, v) => v' <- map_nested f true v ;; ret (k, v'))
                       d st = (inl e, st')
              | (inr _, st') =>
                  exists d',
                  mapM (fun '(k, v) => v' <- map_nested f true v ;; ret (k, v'))
                       d st = (inr d', st')
              end).
  { clear st. induction H as [|[k x] t Hx _ IH]; intros st; cbn; [eauto|].
    rewrite mapM_app_M. cbn in Hx. specialize (Hx st).
    destruct (mapM f (leaves x) st) as [[e|ys] s1].
    - rewrite Hx. reflexivity.
    - destruct Hx as [x' ->]. specialize (IH s1). cbn in IH.
      destruct (mapM f (flat_map _ t) s1) as [[e|zs] s2].
      + rewrite IH. reflexivity.
      + destruct IH as [d' ->]. eauto. }
  specialize (G st). cbn.
  destruct (mapM f (flat_map _ d) st) as [[e|zs] s1].
  - cbn in G. rewrite G. reflexivity.
  - destruct G as [d' G]. cbn in G. rewrite G. eauto.
Qed.

(** A traversal by a function that succeeds on every leaf without changing
    the state is the pure map of the leaves. *)
Lemma map_nested_pure {S} (f : value -> M S value) (g : value -> value)
    (v : value) (s : S) :
  Forall (fun x => f x s = (inr (g x), s)) (leaves v) ->
  map_nested f true v s = (inr (map_leaves g v), s).
Proof.
  induction v using value_rect'; cbn;
    try (intros Hl; inversion Hl; subst; assumption).
  intros Hl.
  rewrite (mapM_M_pure _ (fun '(k, x) => (k, map_leaves g x))); [reflexivity|].
  induction H as [|[k x] t Hx _ IH]; [constructor|].
  cbn in Hl. apply Forall_app in Hl. destruct Hl as [Hl1 Hl2].
  constructor; [|exact (IH Hl2)].
  cbn. cbn in Hx. rewrite (Hx Hl1). reflexivity.
Qed.

Lemma map_nested_result_M (f : value -> result value) (b : bool) (v : value) :
  map_nested (lifted (S := unit) f) b v tt = (map_nested f b v, tt).
Proof.
  induction v using value_rect'; cbn; try reflexivity.
  - destruct b; [reflexivity|].
    rewrite (mapM_result_M _ (map_nested f false)) by exact H.
    destruct (mapM _ l); reflexivity.
  - rewrite (mapM_result_M _
               (fun '(k, v) => v' <- map_nested f b v ;; ret (k, v'))).
    + destruct (mapM _ d); reflexivity.
    + eapply Forall_impl; [|exact H]. intros [k x] Hx. cbn in Hx |- *.
      rewrite Hx. destruct (map_nested f b x); reflexivity.
Qed.

Lemma map_nested_result_pure (f : value -> result value) (g : value -> value)
    (v : value) :
  Forall (fun x => f x = inr (g x)) (leaves v) ->
  map_nested f true v = inr (map_leaves g v).
Proof.
  intros Hl.
  pose proof (map_nested_result_M f true v) as E.
  rewrite (map_nested_pure _ g) in E.
  - now inversion E.
  - eapply Forall_impl; [|exact Hl]. intros x Hx. unfold lifted.
    rewrite Hx. reflexivity.
Qed.

Lemma map_nested_result_error (f : value -> result value) (v : value)
    pre bad post e :
  leaves v = pre ++ bad :: post ->
  Forall (fun x => exists y, f x = inr y) pre ->
  f bad = inl e ->
  map_nested f true v = inl e.
Proof.
  intros Hl Hpre Hbad.
  pose proof (map_nested_result_M f true v) as E.
  pose proof (map_nested_leaves (lifted (S := unit) f) v tt) as G.
  rewrite Hl, mapM_app_M in G.
  assert (P : exists ys, mapM (lifted (S := unit) f) pre tt
                         = (inr ys, tt)).
  { clear -Hpre. induction Hpre as [|x t [y Hx] _ [ys IH]]; cbn; [eauto|].
    rewrite Hx, IH. eauto. }
  destruct P as [ys P]. rewrite P in G. cbn in G. unfold lifted at 1 in G.
  rewrite Hbad in G.
  rewrite G in E. now inversion E.
Qed.

Lemma mapM_result_pure {A B} (f : A -> result B) (g : A -> B) (l : list A) :
  Forall (fun x => f x = inr (g x)) l -> mapM f l = inr (map g l).
Proof.
  induction 1 as [|x t Hx _ IH]; cbn; [reflexivity|].
  rewrite Hx. cbn in IH. rewrite IH. reflexivity.
Qed.

Lemma leaves_map_leaves (g : value -> value) (v : value) :
  (forall x, is_dict (g x) = false) ->
  leaves (map_leaves g v) = map g (leaves v).
Proof.
  intros Hg.
  assert (L : forall x, is_dict x = false -> leaves x = [x])
    by (intros [] E; try reflexivity; discriminate).
  induction v using value_rect'; cbn; try (apply L, Hg).
  induction H as [|[k x] t Hx _ IH]; cbn; [reflexivity|].
  cbn in Hx. rewrite map_app, Hx, IH. reflexivity.
Qed.

Lemma map_leaves_compose (g1 g2 : value -> value) (v : value) :
  (forall x, is_dict (g1 x) = false) ->
  map_leaves g2 (map_leaves g1 v) = map_leaves (fun x => g2 (g1 x)) v.
Proof.
  intros Hg.
  assert (L : forall x, is_dict x = false -> map_leaves g2 x = g2 x)
    by (intros [] E; try reflexivity; discriminate).
  induction v using value_rect'; cbn; try (apply L, Hg).
  f_equal. rewrite map_map.
  induction H as [|[k x] t Hx _ IH]; cbn; [reflexivity|].
  cbn in Hx. rewrite Hx, IH. reflexivity.
Qed.

Lemma topology_map_leaves (g : value -> value) (v : value) :
  (forall x, is_dict (g x) = false) ->
  topology (map_leaves g v) = topology v.
Proof.
  intros Hg.
  assert (L : forall x, is_dict x = false -> topology x = TLeaf)
    by (intros [] E; try reflexivity; discriminate).
  induction v using value_rect'; cbn; try (apply L, Hg).
  f_equal. rewrite map_map.
  induction H as [|[k x] t Hx _ IH]; cbn; [reflexivity|].
  cbn in Hx. rewrite Hx, IH. reflexivity.
Qed.

(** *** [np_to_list] *)

Lemma ndarray_getitem_item a n s i :
  arr_shape a = n :: s -> i < n -> ndarray_getitem a i = inr (array_item a i).
Proof.
  intros Hs Hi. unfold ndarray_getitem, array_item. rewrite Hs.
  cbn -[Nat.ltb]. apply Nat.ltb_lt in Hi. rewrite Hi.
  destruct s; reflexivity.
Qed.

Lemma ndarray_to_list_items a n s :
  arr_shape a = n :: s ->
  ndarray_to_list a = inr (map (array_item a) (seq 0 n)).
Proof.
  intros Hs. unfold ndarray_to_list. rewrite Hs.
  apply mapM_result_pure. apply Forall_forall. intros i Hi.
  apply in_seq in Hi. eapply ndarray_getitem_item; [exact Hs | lia].
Qed.

Lemma np_to_list_sequence (v : value) :
  is_sequence_leaf v = true -> np_to_list v = inr (VList (items_of v)).
Proof.
  unfold items_of. destruct v; cbn; try discriminate; try reflexivity.
  destruct (arr_shape a) as [|n s] eqn:Hs; [discriminate|]. intros _.
  unfold ndarray_to_list. rewrite Hs.
  pose proof (ndarray_to_list_items a Hs) as E. unfold ndarray_to_list in E.
  rewrite Hs in E. rewrite E. reflexivity.
Qed.

Lemma np_to_list_other (v : value) :
  type_of v <> TList -> type_of v <> TTuple -> type_of v <> TNdarray ->
  np_to_list v = inl (ValueError (MsgNotSequence (type_of v))).
Proof. destruct v; cbn; intros; try reflexivity; congruence. Qed.

Lemma np_to_list_succeeds_iff (v : value) :
  (exists y, np_to_list v = inr y) <-> is_sequence_leaf v = true.
Proof.
  split.
  - intros [y Hy]. destruct v; cbn in *; try discriminate; try reflexivity.
    unfold ndarray_to_list in Hy. destruct (arr_shape a); [discriminate|].
    reflexivity.
  - intros Hv. rewrite (np_to_list_sequence _ Hv). eauto.
Qed.

(** *** [_transpose_dict_list] *)

Lemma items_of_coerced x : items_of (coerced x) = items_of x.
Proof. reflexivity. Qed.

Lemma mapM_update_length (ls : list value) (cur : option nat) :
  Forall (fun x => exists l, x = VList l) ls ->
  match check_lengths cur (map (fun x => length (items_of x)) ls) with
  | inl e => exists cur', mapM update_length ls cur = (inl e, cur')
  | inr cur' => mapM update_length ls cur = (inr ls, cur')
  end.
Proof.
  intros Hls. revert cur.
  induction Hls as [|x t [l ->] _ IH]; intros cur; [reflexivity|].
  cbn [map check_lengths]. change (items_of (VList l)) with l.
  destruct cur as [v|].
  - destruct (Nat.eqb_spec v (length l)) as [E|E].
    + specialize (IH (Some v)).
      destruct (check_lengths (Some v) _) as [e|cur'].
      * destruct IH as [cur' IH]. exists cur'. cbn.
        rewrite (proj2 (Nat.eqb_eq _ _) E). cbn. cbn in IH. rewrite IH.
        reflexivity.
      * cbn. rewrite (proj2 (Nat.eqb_eq _ _) E). cbn. cbn in IH. rewrite IH.
        reflexivity.
    + exists (Some v). cbn. rewrite (proj2 (Nat.eqb_neq _ _) E). reflexivity.
  - specialize (IH (Some (length l))).
    destruct (check_lengths (Some (length l)) _) as [e|cur'].
    + destruct IH as [cur' IH]. exists cur'. cbn. cbn in IH. rewrite IH.
      reflexivity.
    + cbn. cbn in IH. rewrite IH. reflexivity.
Qed.

Lemma check_lengths_Some cur lens n :
  check_lengths cur lens = inr (Some n) ->
  Forall (eq n) lens /\ (cur = None \/ cur = Some n).
Proof.
  revert cur. induction lens as [|m t IH]; intros cur; cbn.
  - intros [= ->]. split; [constructor | now right].
  - destruct cur as [v|].
    + destruct (Nat.eqb_spec v m) as [->|]; [|discriminate].
      intros E. destruct (IH _ E) as [Ht [C|C]]; [discriminate|].
      injection C as ->. split; [constructor; auto | now right].
    + intros E. destruct (IH _ E) as [Ht [C|C]]; [discriminate|].
      injection C as ->. split; [constructor; auto | now left].
Qed.

Lemma check_lengths_None lens :
  check_lengths None lens = inr None -> lens = [].
Proof.
  destruct lens as [|m t]; [reflexivity|]. cbn.
  assert (G : forall cur, cur <> None -> check_lengths cur t <> inr None).
  { induction t as [|k t IH]; intros cur Hc; cbn; [congruence|].
    destruct cur as [v|]; [|congruence].
    destruct (v =? k); [apply IH; discriminate | discriminate]. }
  intros E. exfalso. exact (G (Some m) ltac:(discriminate) E).
Qed.

(** The transposition of a structure whose leaves are all sequences is
    decided by the lengths of its leaves, in order. *)
Lemma _transpose_dict_list_eq (example : value) :
  Forall (fun x => is_sequence_leaf x = true) (leaves example) ->
  _transpose_dict_list example =
  match check_lengths None
          (map (fun x => length (items_of x)) (leaves example)) with
  | inl e => inl e
  | inr None =>
      inl (TypeError
             (MsgText "'NoneType' object cannot be interpreted as an integer"))
  | inr (Some n) => inr (transposed example n)
  end.
Proof.
  intros Hseq. unfold _transpose_dict_list.
  rewrite (map_nested_result_pure np_to_list coerced).
  2:{ eapply Forall_impl; [|exact Hseq]. intros x Hx.
      apply np_to_list_sequence. exact Hx. }
  cbn [bind result_monad].
  pose proof (map_nested_leaves update_length
                (map_leaves coerced example) None) as G.
  rewrite leaves_map_leaves in G by reflexivity.
  pose proof (mapM_update_length (ls := map coerced (leaves example)) None) as U.
  rewrite map_map in U. cbn [items_of] in U.
  assert (Hl : Forall (fun x => exists l, x = VList l)
                 (map coerced (leaves example))).
  { apply Forall_forall. intros x Hx. apply in_map_iff in Hx.
    destruct Hx as [y [<- _]]. unfold coerced. eauto. }
  specialize (U Hl).
  assert (E : map (fun x => length (items_of (coerced x))) (leaves example)
              = map (fun x => length (items_of x)) (leaves example))
    by reflexivity.
  rewrite E in U. clear E.
  destruct (check_lengths None _) as [e|cur'] eqn:C.
  - destruct U as [cur' U]. rewrite U in G. rewrite G. reflexivity.
  - rewrite U in G. destruct G as [v' ->]. cbn [bind result_monad].
    destruct cur' as [n|]; [|reflexivity].
    apply check_lengths_Some in C. destruct C as [C _].
    unfold transposed.
    rewrite (mapM_result_pure _ (step_record example)); [reflexivity|].
    apply Forall_forall. intros i Hi. apply in_seq in Hi.
    rewrite (map_nested_result_pure _ (fun x => nth i (items_of x) VNone)).
    + unfold step_record. rewrite map_leaves_compose by reflexivity.
      reflexivity.
    + rewrite leaves_map_leaves by reflexivity.
      apply Forall_forall. intros x Hx. apply in_map_iff in Hx.
      destruct Hx as [y [<- Hy]]. unfold coerced at 1. cbn [py_getitem].
      rewrite Forall_forall in C.
      assert (Hn : n = length (items_of y)).
      { apply C. apply in_map_iff. eauto. }
      destruct (nth_error (items_of y) i) as [z|] eqn:N.
      * rewrite items_of_coerced. rewrite (nth_error_nth _ _ VNone N).
        reflexivity.
      * apply nth_error_None in N. lia.
Qed.

(** *** [encode_example], branch by branch *)

Ltac step_encode :=
  cbn -[_transpose_dict_list mapM Z.of_nat _stack_nested get_serialized_info
        map_nested].

Lemma encode_example_transpose_error (w : World St) example e :
  _transpose_dict_list example = inl e ->
  encode_example example w = (inl e, w).
Proof.
  intros E. unfold encode_example. step_encode. rewrite E. reflexivity.
Qed.

Lemma encode_example_static_mismatch (w : World St) example records l :
  _transpose_dict_list example = inr records ->
  _length (self w) = Some l ->
  l <> Z.of_nat (length records) ->
  encode_example example w
  = (inl (ValueError (MsgStaticLength (length records) l)), w).
Proof.
  intros E Hl Hne. unfold encode_example. step_encode. rewrite E.
  step_encode. rewrite Hl.
  destruct (Z.eqb_spec (Z.of_nat (length records)) l); [congruence|].
  reflexivity.
Qed.

Lemma encode_example_empty (w : World St) example :
  _transpose_dict_list example = inr [] ->
  length_ok w 0 ->
  encode_example example w
  = (serialized_info <- get_serialized_info (St := St) ;;
     map_nested (fun i => lift (_build_empty_np i)) false serialized_info) w.
Proof.
  intros E Hl. unfold encode_example, length_ok in *. step_encode.
  rewrite E. step_encode.
  destruct (_length (self w)) as [l|]; [|reflexivity].
  subst l. reflexivity.
Qed.

Lemma encode_example_steps (w : World St) example r rs :
  _transpose_dict_list example = inr (r :: rs) ->
  length_ok w (length (r :: rs)) ->
  encode_example example w
  = (sequence_elements <- mapM (feature_encode_example (St := St)) (r :: rs) ;;
     lift (_stack_nested sequence_elements)) w.
Proof.
  intros E Hl. unfold encode_example, length_ok in *.
  step_encode. rewrite E. step_encode.
  destruct (_length (self w)) as [l|]; [|reflexivity].
  subst l. rewrite Z.eqb_refl. reflexivity.
Qed.

Lemma check_lengths_agree n lens :
  Forall (eq n) lens -> check_lengths (Some n) lens = inr (Some n).
Proof.
  induction 1 as [|m t <- _ IH]; cbn; [reflexivity|].
  rewrite Nat.eqb_refl. exact IH.
Qed.

Lemma check_lengths_disagree n pre m post :
  Forall (eq n) pre -> m <> n ->
  check_lengths (Some n) (pre ++ m :: post)
  = inl (ValueError (MsgElemLength n m)).
Proof.
  intros Hpre Hm. induction Hpre as [|k t <- _ IH]; cbn.
  - destruct (Nat.eqb_spec n m); [congruence | reflexivity].
  - rewrite Nat.eqb_refl. exact IH.
Qed.

(** *** Descriptions, lengths and the stacking decision *)

(** C1 (shape derivation).  For a wrapped feature whose description is a
    nested structure of tensor descriptions, [get_tensor_info] and
    [get_serialized_info] both return, without any effect, a structure of the
    same topology in which the leaf at every path has the configured length
    (an integer, or [None] when the length is unset) prepended to the shape of
    the wrapped feature's leaf at that path, and the same element type. *)
Theorem description_gains_length_dimension (w : World St) (info : value) :
  is_description info = true ->
  (fc_get_tensor_info (_feature (self w)) (inner w) = inr info ->
   exists out,
     get_tensor_info w = (inr out, w) /\
     topology out = topology info /\
     forall path t,
       leaf_at path info = Some (VInfo t) ->
       leaf_at path out
       = Some (VInfo {| shape := _length (self w) :: shape t;
                        dtype := dtype t |})) /\
  (fc_get_serialized_info (_feature (self w)) (inner w) = inr info ->
   exists out,
     get_serialized_info w = (inr out, w) /\
     topology out = topology info /\
     forall path t,
       leaf_at path info = Some (VInfo t) ->
       leaf_at path out
       = Some (VInfo {| shape := _length (self w) :: shape t;
                        dtype := dtype t |})).
Proof.
  intros Hd. split; intros Hinfo;
    exists (map_description (with_length (_length (self w))) info);
    (split; [|split]).
  - apply get_tensor_info_eq; assumption.
  - apply topology_map_description; [reflexivity | exact Hd].
  - intros path t Hleaf.
    apply (leaf_at_map_description (with_length (_length (self w))));
      [reflexivity | exact Hd | exact Hleaf].
  - apply get_serialized_info_eq; assumption.
  - apply topology_map_description; [reflexivity | exact Hd].
  - intros path t Hleaf.
    apply (leaf_at_map_description (with_length (_length (self w))));
      [reflexivity | exact Hd | exact Hleaf].
Qed.

(** C3 (length enforcement).  For an input whose leaves are all sequences,
    with [n] the length of the first leaf: if a later leaf is the first one
    of another length [m], [encode_example] raises the error of
    [update_length] with the two lengths [n] and [m]; if all leaves have
    length [n], the transposition yields [n] records, and if moreover a
    static length other than [n] was configured, [encode_example] raises the
    error of the static check with [n] and the configured length.  In both
    failures nothing else has happened: no call to the wrapped encoder, no
    change of state. *)
Theorem encode_example_enforces_lengths (w : World St) (example : value)
    (n : nat) (rest : list nat) :
  Forall (fun x => is_sequence_leaf x = true) (leaves example) ->
  map (fun x => length (items_of x)) (leaves example) = n :: rest ->
  (forall pre m post,
     rest = pre ++ m :: post -> Forall (eq n) pre -> m <> n ->
     encode_example example w = (inl (ValueError (MsgElemLength n m)), w)) /\
  (Forall (eq n) rest ->
   (exists records,
      _transpose_dict_list example = inr records /\ length records = n) /\
   (forall l,
      _length (self w) = Some l -> l <> Z.of_nat n ->
      encode_example example w
      = (inl (ValueError (MsgStaticLength n l)), w))).
Proof.
  intros Hseq Hlens.
  pose proof (_transpose_dict_list_eq example Hseq) as T. rewrite Hlens in T.
  cbn [check_lengths] in T. split.
  - intros pre m post -> Hpre Hm.
    rewrite (check_lengths_disagree _ Hpre Hm) in T.
    apply encode_example_transpose_error. exact T.
  - intros Hall. rewrite (check_lengths_agree Hall) in T.
    assert (Hn : length (transposed example n) = n).
    { unfold transposed. rewrite length_map, length_seq. reflexivity. }
    split; [eauto|].
    intros l Hl Hne.
    rewrite (encode_example_static_mismatch w _ T Hl); rewrite Hn; auto.
Qed.

(** C9 (the stacking decision).  [stack_arrays] looks at its first argument
    only: when it is an array, the result is that of [np.stack] on all the
    arguments, whatever they are; when it is not, the result is the plain
    list of the arguments, whatever the later ones are.  [_stack_nested]
    applies it to every group of values whose first one is not a mapping. *)
Theorem stack_arrays_decides_on_first (v : value) (rest : list value) :
  (forall a, v = VArray a ->
     stack_arrays (v :: rest)
     = (r <- np_stack (v :: rest) ;; ret (VArray r))) /\
  (type_of v <> TNdarray ->
     stack_arrays (v :: rest) = inr (VList (v :: rest))) /\
  (type_of v <> TDict ->
     _stack_nested (v :: rest) = stack_arrays (v :: rest)).
Proof.
  split; [|split].
  - intros a ->. reflexivity.
  - destruct v; cbn; intros Hv; try reflexivity. congruence.
  - destruct v; cbn; intros Hv; try reflexivity. congruence.
Qed.

(** C10 (no leaf at all).  For an input without any leaf, such as the empty
    mapping, [encode_example] raises the [TypeError] of [range(None)],
    whatever the configured length and the wrapped feature are, and nothing
    else has happened. *)
Theorem encode_example_without_leaf (w : World St) (example : value) :
  leaves example = [] ->
  encode_example example w
  = (inl (TypeError
            (MsgText "'NoneType' object cannot be interpreted as an integer")),
     w).
Proof.
  intros Hl. apply encode_example_transpose_error.
  rewrite _transpose_dict_list_eq by (rewrite Hl; constructor).
  rewrite Hl. reflexivity.
Qed.

(** C6, amended (coercion of the leaves).  [np_to_list] turns a leaf into a
    list exactly when it is a list, a tuple, or an array with at least one
    axis: a list passes through unchanged, a tuple becomes the list of its
    elements, an array the list of its items [a[0]], ..., [a[n-1]] along the
    first axis.  A leaf of any other type than list, tuple or array raises
    the error that names its type, and so does [encode_example] at the first
    such leaf, when the leaves before it are sequences, before anything else
    happens. *)
Theorem np_to_list_accepts_sequences :
  (forall elem : value,
     ((exists l, np_to_list elem = inr (VList l))
      <-> is_sequence_leaf elem = true) /\
     (forall l, elem = VList l -> np_to_list elem = inr (VList l)) /\
     (forall l, elem = VTuple l -> np_to_list elem = inr (VList l)) /\
     (forall a n s,
        elem = VArray a -> arr_shape a = n :: s ->
        exists l,
          np_to_list elem = inr (VList l) /\ length l = n /\
          forall i, i < n ->
            exists x, ndarray_getitem a i = inr x /\ nth_error l i = Some x) /\
     (type_of elem <> TList -> type_of elem <> TTuple ->
      type_of elem <> TNdarray ->
      np_to_list elem = inl (ValueError (MsgNotSequence (type_of elem))))) /\
  (forall (w : World St) (example : value) pre bad post,
     leaves example = pre ++ bad :: post ->
     Forall (fun x => is_sequence_leaf x = true) pre ->
     type_of bad <> TList -> type_of bad <> TTuple ->
     type_of bad <> TNdarray ->
     encode_example example w
     = (inl (ValueError (MsgNotSequence (type_of bad))), w)).
Proof.
  split.
  - intros elem. repeat split.
    + intros [l Hl]. apply np_to_list_succeeds_iff. eauto.
    + intros Hs. rewrite (np_to_list_sequence _ Hs). eauto.
    + intros l ->. reflexivity.
    + intros l ->. reflexivity.
    + intros a n s -> Hs. exists (map (array_item a) (seq 0 n)).
      split; [|split].
      * cbn. rewrite (ndarray_to_list_items a Hs). reflexivity.
      * rewrite length_map, length_seq. reflexivity.
      * intros i Hi. exists (array_item a i). split.
        -- eapply ndarray_getitem_item; eassumption.
        -- rewrite nth_error_map, nth_error_seq.
           apply Nat.ltb_lt in Hi. rewrite Hi. reflexivity.
    + apply np_to_list_other.
  - intros w example pre bad post Hl Hpre H1 H2 H3.
    apply encode_example_transpose_error. unfold _transpose_dict_list.
    erewrite map_nested_result_error; [reflexivity | exact Hl | |].
    + eapply Forall_impl; [|exact Hpre]. intros x Hx.
      apply np_to_list_succeeds_iff. exact Hx.
    + apply np_to_list_other; assumption.
Qed.

(** *** The empty sequence *)

Lemma to_nat_dim_or_zero d : Z.to_nat (dim_or_zero d) = collapse d.
Proof.
  destruct d as [z|]; cbn; [|reflexivity].
  destruct (Z.eqb_spec z 0); subst; reflexivity.
Qed.

Lemma _build_empty_np_eq (t : TensorInfo) d s :
  shape t = d :: s -> collapse d = 0 -> known_dims_nonneg t ->
  _build_empty_np (VInfo t) = inr (VArray (empty_array t)).
Proof.
  intros Hs Hd Hnn. unfold _build_empty_np, np_empty, empty_array. cbn.
  assert (F : forallb (fun z => (0 <=? z)%Z) (map dim_or_zero (shape t)) = true).
  { apply forallb_forall. intros z Hz. apply in_map_iff in Hz.
    destruct Hz as [o [<- Ho]]. unfold known_dims_nonneg in Hnn.
    rewrite Forall_forall in Hnn. specialize (Hnn _ Ho).
    destruct o as [z|]; cbn; [|reflexivity].
    destruct (Z.eqb_spec z 0); [reflexivity | apply Z.leb_le; exact Hnn]. }
  rewrite F. cbn. rewrite map_map.
  rewrite (map_ext _ collapse to_nat_dim_or_zero).
  rewrite Hs. cbn. rewrite Hd. reflexivity.
Qed.

Lemma is_description_map_description (g : TensorInfo -> TensorInfo) v :
  is_description v = true ->
  is_description (map_description (fun t => VInfo (g t)) v) = true.
Proof.
  induction v using value_rect'; cbn; try discriminate; [|reflexivity].
  intros Hd. rewrite forallb_forall in *. intros [k x] Hin.
  apply in_map_iff in Hin. destruct Hin as [[k' x'] [E Hin]].
  injection E as <- <-. rewrite Forall_forall in H.
  exact (H _ Hin (Hd _ Hin)).
Qed.

Lemma leaves_map_description (g : TensorInfo -> TensorInfo) v t' :
  is_description v = true ->
  In (VInfo t') (leaves (map_description (fun t => VInfo (g t)) v)) ->
  exists t, In (VInfo t) (leaves v) /\ t' = g t.
Proof.
  induction v using value_rect'; cbn; try discriminate.
  - intros Hd Hin. rewrite forallb_forall in Hd.
    apply in_flat_map in Hin. destruct Hin as [[k x'] [Hin Hl]].
    apply in_map_iff in Hin. destruct Hin as [[k' x] [E Hin]].
    injection E as <- <-. rewrite Forall_forall in H.
    destruct (H _ Hin (Hd _ Hin) Hl) as [t0 [Ht0 ->]].
    exists t0. split; [|reflexivity]. apply in_flat_map. exists (k', x). auto.
  - intros _ [E|[]]. injection E as <-. exists t. auto.
Qed.

(** C4, amended (the empty sequence).  When the realized length is zero and
    the configured length is unset or zero, [encode_example] returns, for
    every leaf of the node's serialized description, the empty array of that
    leaf: the declared shape with every unknown dimension collapsed to 0, the
    declared element type, no element.  The wrapped description is taken to
    be a structure of tensor descriptions whose known dimensions are not
    negative.  The state is unchanged: the wrapped encoder was not called. *)
Theorem encode_example_empty_sequence (w : World St) (example info : value) :
  _transpose_dict_list example = inr [] ->
  _length (self w) = None \/ _length (self w) = Some 0%Z ->
  fc_get_serialized_info (_feature (self w)) (inner w) = inr info ->
  is_description info = true ->
  (forall t, In (VInfo t) (leaves info) -> known_dims_nonneg t) ->
  exists serialized_info out,
    get_serialized_info w = (inr serialized_info, w) /\
    encode_example example w = (inr out, w) /\
    topology out = topology serialized_info /\
    forall path t,
      leaf_at path serialized_info = Some (VInfo t) ->
      leaf_at path out = Some (VArray (empty_array t)).
Proof.
  intros Htr Hlen Hinfo Hd Hnn.
  set (L := _length (self w)) in *.
  set (g := fun t => {| shape := L :: shape t; dtype := dtype t |}).
  assert (Hsd : is_description (map_description (fun t => VInfo (g t)) info)
                = true) by (apply is_description_map_description; exact Hd).
  exists (map_description (fun t => VInfo (g t)) info),
         (map_description (fun t => VArray (empty_array t))
            (map_description (fun t => VInfo (g t)) info)).
  split; [|split; [|split]].
  - apply get_serialized_info_eq; assumption.
  - rewrite encode_example_empty; [|exact Htr|].
    2:{ unfold length_ok. fold L. destruct Hlen as [->| ->]; reflexivity. }
    cbn [bind M_monad]. rewrite (get_serialized_info_eq w Hinfo Hd).
    fold L. change (with_length L) with (fun t => VInfo (g t)).
    apply map_nested_description; [exact Hsd|].
    intros t' Ht'. apply leaves_map_description in Ht'; [|exact Hd].
    destruct Ht' as [t [Ht ->]].
    erewrite (@_build_empty_np_eq (g t) L (shape t)).
    + reflexivity.
    + reflexivity.
    + destruct Hlen as [->| ->]; reflexivity.
    + unfold known_dims_nonneg. cbn. constructor; [|apply Hnn; exact Ht].
      destruct Hlen as [->| ->]; [exact I | reflexivity].
  - apply topology_map_description; [reflexivity | exact Hsd].
  - intros path t Hleaf.
    apply (leaf_at_map_description (fun t => VArray (empty_array t)));
      [reflexivity | exact Hsd | exact Hleaf].
Qed.

(** *** The node's own fields *)

Lemma keeps_ret {A} (a : A) : keeps_self (St := St) (ret a).
Proof. intros w. reflexivity. Qed.

Lemma keeps_raise {A} (e : exn) :
  keeps_self (St := St) (raise (A := A) e).
Proof. intros w. reflexivity. Qed.

Lemma keeps_lift {A} (r : result A) : keeps_self (St := St) (lift r).
Proof. intros w. destruct r; reflexivity. Qed.

Lemma keeps_bind {A B} (c : M (World St) A) (k : A -> M (World St) B) :
  keeps_self c -> (forall a, keeps_self (k a)) -> keeps_self (bind c k).
Proof.
  intros Hc Hk w. cbn. specialize (Hc w).
  destruct (c w) as [[e|a] w1]; cbn in *; [exact Hc|].
  rewrite (Hk a w1). exact Hc.
Qed.

Lemma keeps_gets {A} (f : World St -> A) : keeps_self (gets f).
Proof. intros w. reflexivity. Qed.

Lemma keeps_call_feature {A}
    (method : FeatureConnector St -> St -> result A) :
  keeps_self (call_feature method).
Proof. intros w. reflexivity. Qed.

Lemma keeps_call_feature_hook {A} (method : FeatureConnector St -> M St A) :
  keeps_self (call_feature_hook method).
Proof.
  intros w. unfold call_feature_hook.
  destruct (method _ _) as [r st]. reflexivity.
Qed.

Lemma keeps_feature_encode_example x :
  keeps_self (feature_encode_example (St := St) x).
Proof. intros w. reflexivity. Qed.

Lemma keeps_mapM {A B} (f : A -> M (World St) B) (l : list A) :
  (forall x, keeps_self (f x)) -> keeps_self (mapM f l).
Proof.
  intros Hf. induction l as [|x t IH]; [apply keeps_ret|].
  cbn [mapM]. apply keeps_bind; [apply Hf|]. intros y.
  apply keeps_bind; [exact IH|]. intros ys. apply keeps_ret.
Qed.

Lemma keeps_map_nested (f : value -> M (World St) value) b v :
  (forall x, keeps_self (f x)) -> keeps_self (map_nested f b v).
Proof.
  intros Hf. induction v using value_rect'; try apply Hf.
  - cbn [map_nested]. destruct b; [apply Hf|].
    apply keeps_bind; [|intros; apply keeps_ret].
    induction H as [|x t Hx _ IH]; [apply keeps_ret|].
    cbn [mapM]. apply keeps_bind; [exact Hx|]. intros y.
    apply keeps_bind; [exact IH|]. intros ys. apply keeps_ret.
  - cbn [map_nested]. apply keeps_bind; [|intros; apply keeps_ret].
    induction H as [|[k x] t Hx _ IH]; [apply keeps_ret|].
    cbn [mapM]. apply keeps_bind.
    + apply keeps_bind; [exact Hx|]. intros y. apply keeps_ret.
    + intros y. apply keeps_bind; [exact IH|]. intros ys. apply keeps_ret.
Qed.

Lemma keeps_get_tensor_info : keeps_self (get_tensor_info (St := St)).
Proof.
  unfold get_tensor_info. apply keeps_bind; [apply keeps_call_feature|].
  intros info. apply keeps_map_nested. intros x.
  apply keeps_bind; [apply keeps_lift|]. intros t.
  apply keeps_bind; [apply keeps_gets|]. intros l. apply keeps_ret.
Qed.

Lemma keeps_get_serialized_info : keeps_self (get_serialized_info (St := St)).
Proof.
  unfold get_serialized_info. apply keeps_bind; [apply keeps_call_feature|].
  intros info. apply keeps_map_nested. intros x.
  apply keeps_bind; [apply keeps_gets|]. intros l.
  apply keeps_bind; [apply keeps_lift|]. intros s.
  apply keeps_bind; [apply keeps_lift|]. intros d. apply keeps_ret.
Qed.

Lemma keeps_encode_example example :
  keeps_self (encode_example (St := St) example).
Proof.
  unfold encode_example. apply keeps_bind; [apply keeps_lift|].
  intros records. apply keeps_bind; [apply keeps_gets|]. intros l.
  apply keeps_bind.
  - destruct l as [l|]; [|apply keeps_ret].
    destruct (negb _); [apply keeps_raise | apply keeps_ret].
  - intros _. destruct records as [|r rs].
    + apply keeps_bind; [apply keeps_get_serialized_info|]. intros info.
      apply keeps_map_nested. intros x. apply keeps_lift.
    + apply keeps_bind.
      * apply keeps_mapM. apply keeps_feature_encode_example.
      * intros es. apply keeps_lift.
Qed.

Lemma keeps_decode_example x : keeps_self (decode_example (St := St) x).
Proof.
  unfold decode_example, self_dtype. apply keeps_bind.
  - apply keeps_bind; [apply keeps_get_tensor_info|]. intros info.
    apply keeps_map_nested. intros t.
    apply keeps_bind; [apply keeps_lift|]. intros d. apply keeps_ret.
  - intros dt. apply keeps_call_feature.
Qed.

Lemma keeps_save_metadata args kwargs :
  keeps_self (save_metadata (St := St) args kwargs).
Proof.
  unfold save_metadata. apply keeps_bind; [apply keeps_call_feature_hook|].
  intros _. apply keeps_ret.
Qed.

Lemma keeps_load_metadata args kwargs :
  keeps_self (load_metadata (St := St) args kwargs).
Proof.
  unfold load_metadata. apply keeps_bind; [apply keeps_call_feature_hook|].
  intros _. apply keeps_ret.
Qed.

(** C7 (immutability of the node).  The constructor stores the wrapped
    feature and the length; after any of the six operations, from any state
    and on any arguments, whether it returns or raises, the fields [_feature]
    and [_length] of the node are the ones it had before. *)
Theorem sequence_fields_are_immutable :
  (forall (feature : FeatureConnector St) (length : option Z),
     _feature (__init__ feature length) = feature /\
     _length (__init__ feature length) = length) /\
  (forall (w : World St) (x : value) (args : list value)
          (kwargs : list (string * value)),
     let unchanged (w' : World St) :=
       _feature (self w') = _feature (self w) /\
       _length (self w') = _length (self w) in
     unchanged (snd (get_tensor_info w)) /\
     unchanged (snd (get_serialized_info w)) /\
     unchanged (snd (encode_example x w)) /\
     unchanged (snd (decode_example x w)) /\
     unchanged (snd (save_metadata args kwargs w)) /\
     unchanged (snd (load_metadata args kwargs w))).
Proof.
  split; [intros; split; reflexivity|].
  intros w x args kwargs unchanged. unfold unchanged.
  rewrite keeps_get_tensor_info, keeps_get_serialized_info,
    (keeps_encode_example x), (keeps_decode_example x),
    (keeps_save_metadata args kwargs), (keeps_load_metadata args kwargs).
  repeat split; reflexivity.
Qed.

(** C8 (metadata delegation).  [save_metadata] and [load_metadata] call the
    operation of the same name of the wrapped feature with the arguments
    they were given, positional and keyword; the only change of state is the
    one that call makes to the wrapped feature; an exception of the call is
    passed on, and otherwise the result is [None], whatever the call
    returned. *)
Theorem metadata_hooks_delegate (w : World St) (args : list value)
    (kwargs : list (string * value)) :
  save_metadata args kwargs w
  = (let (r, st) := fc_save_metadata (_feature (self w)) args kwargs (inner w) in
     (match r with inl e => inl e | inr _ => inr VNone end,
      {| self := self w; inner := st; encoder_calls := encoder_calls w |})) /\
  load_metadata args kwargs w
  = (let (r, st) := fc_load_metadata (_feature (self w)) args kwargs (inner w) in
     (match r with inl e => inl e | inr _ => inr VNone end,
      {| self := self w; inner := st; encoder_calls := encoder_calls w |})).
Proof.
  unfold save_metadata, load_metadata, call_feature_hook. cbn. split.
  - destruct (fc_save_metadata _ _ _ _) as [[e|r] st]; reflexivity.
  - destruct (fc_load_metadata _ _ _ _) as [[e|r] st]; reflexivity.
Qed.

(** *** [zip_dict] and the recursion of [_stack_nested] *)

Lemma mapM_result_ext {A B} (f g : A -> result B) (l : list A) :
  Forall (fun x => f x = g x) l -> mapM f l = mapM g l.
Proof.
  induction 1 as [|x t Hx _ IH]; cbn; [reflexivity|].
  rewrite Hx. cbn in IH. rewrite IH. reflexivity.
Qed.

Lemma mapM_result_Forall {A B} (f : A -> result B) (P : B -> Prop)
    (l : list A) (ys : list B) :
  (forall x y, In x l -> f x = inr y -> P y) ->
  mapM f l = inr ys -> Forall P ys.
Proof.
  revert ys. induction l as [|x t IH]; intros ys Hf; cbn.
  - intros [= <-]. constructor.
  - destruct (f x) as [e|y] eqn:Hx; [discriminate|].
    cbn in IH. destruct (mapM f t) as [e|ys'] eqn:Ht; [discriminate|].
    intros [= <-]. constructor.
    + apply (Hf x); [now left | exact Hx].
    + apply IH; [|reflexivity]. intros x' y' Hin. apply Hf. now right.
Qed.

Lemma depth_item k x d : In (k, x) d -> depth x < depth (VDict d).
Proof.
  intros Hin. cbn [depth]. apply Nat.lt_succ_r. unfold list_max.
  induction d as [|[k' x'] d IH]; [destruct Hin|].
  cbn [map fold_right]. destruct Hin as [[= -> ->]|Hin]; [lia|].
  specialize (IH Hin). lia.
Qed.

(** The first value of every group of [zip_dict] is a value of the first
    mapping. *)
Lemma zip_dict_heads d rest groups :
  zip_dict (VDict d :: rest) = inr groups ->
  Forall (fun g => exists k x, In (k, x) d /\ hd VNone (snd g) = x) groups.
Proof.
  unfold zip_dict. cbn [mapM bind result_monad dict_items ret].
  destruct (mapM dict_items rest) as [e|items]; [discriminate|].
  cbn [bind result_monad ret]. apply mapM_result_Forall.
  intros key g _. cbn [mapM bind result_monad].
  unfold dict_getitem at 1. cbn [dict_items bind result_monad ret].
  destruct (find _ d) as [[k x]|] eqn:F; [|discriminate].
  cbn [snd]. destruct (mapM _ rest) as [e|vs]; [discriminate|].
  intros [= <-]. exists k, x. split; [|reflexivity].
  apply find_some in F. tauto.
Qed.

Lemma _stack_nested_rec_fuel (fuel fuel' : nat) (elems : list value) :
  depth (hd VNone elems) < fuel -> depth (hd VNone elems) < fuel' ->
  _stack_nested_rec fuel elems = _stack_nested_rec fuel' elems.
Proof.
  revert fuel' elems. induction fuel as [|fuel IH]; intros fuel' elems Hf Hf';
    [lia|].
  destruct fuel' as [|fuel']; [lia|].
  destruct elems as [|v rest]; [reflexivity|].
  destruct v; try reflexivity.
  cbn [_stack_nested_rec hd] in *.
  destruct (zip_dict (VDict d :: rest)) as [e|groups] eqn:Z; [reflexivity|].
  cbn [bind result_monad].
  erewrite mapM_result_ext; [reflexivity|].
  eapply Forall_impl; [|exact (zip_dict_heads _ _ Z)].
  intros [k sub] [k' [x [Hin Hx]]]. cbn [snd] in Hx.
  pose proof (depth_item _ _ _ Hin) as Hd.
  rewrite (IH fuel' sub); [reflexivity | |]; rewrite Hx; lia.
Qed.

(** The recursion of [_stack_nested] as the source writes it. *)
Lemma _stack_nested_unfold (d : list (string * value)) (rest : list value) :
  _stack_nested (VDict d :: rest) =
  (groups <- zip_dict (VDict d :: rest) ;;
   d' <- mapM (fun '(k, sub_sequence) =>
                 v <- _stack_nested sub_sequence ;; ret (k, v)) groups ;;
   ret (VDict d')).
Proof.
  unfold _stack_nested at 1. cbn [hd _stack_nested_rec].
  destruct (zip_dict (VDict d :: rest)) as [e|groups] eqn:Z; [reflexivity|].
  cbn [bind result_monad].
  erewrite mapM_result_ext; [reflexivity|].
  eapply Forall_impl; [|exact (zip_dict_heads _ _ Z)].
  intros [k sub] [k' [x [Hin Hx]]]. cbn [snd] in Hx.
  pose proof (depth_item _ _ _ Hin) as Hd. unfold _stack_nested.
  rewrite (@_stack_nested_rec_fuel (depth (VDict d))
             (S (depth (hd VNone sub))) sub);
    [reflexivity | rewrite Hx; lia | lia].
Qed.

Lemma dedup_seen seen l :
  (forall k, In k l -> In k seen) -> dedup seen l = [].
Proof.
  induction l as [|k t IH]; intros Hl; cbn; [reflexivity|].
  destruct (in_dec string_dec k seen) as [_|n].
  - apply IH. intros k' Hk. apply Hl. now right.
  - exfalso. apply n, Hl. now left.
Qed.

Lemma dedup_fresh ks : forall seen rest,
  NoDup ks -> (forall k, In k ks -> ~ In k seen) ->
  (forall k, In k rest -> In k ks \/ In k seen) ->
  dedup seen (ks ++ rest) = ks.
Proof.
  induction ks as [|k ks IH]; intros seen rest Hnd Hfresh Hrest; cbn.
  - apply dedup_seen. intros k Hk. destruct (Hrest k Hk) as [[]|]; assumption.
  - inversion Hnd as [|? ? Hk Hnd']; subst.
    destruct (in_dec string_dec k seen) as [i|_].
    + exfalso. apply (Hfresh k); [now left | exact i].
    + f_equal. apply IH; [exact Hnd' | |].
      * intros k' Hk' [->|Hs]; [contradiction|].
        apply (Hfresh k'); [now right | exact Hs].
      * intros x Hx. destruct (Hrest x Hx) as [[->|]|]; cbn; auto.
Qed.

Lemma lookup_find k d :
  find (fun kv : string * value => String.eqb (fst kv) k) d
  = match lookup k d with
    | Some x => Some (k, x)
    | None => None
    end.
Proof.
  unfold lookup. induction d as [|[k' x] d IH]; cbn; [reflexivity|].
  destruct (String.eqb_spec k' k) as [->|]; [reflexivity | exact IH].
Qed.

Lemma dict_getitem_lookup d k :
  dict_getitem (VDict d) k
  = match lookup k d with
    | Some x => inr x
    | None => inl (KeyError k)
    end.
Proof.
  unfold dict_getitem. cbn. rewrite lookup_find.
  destruct (lookup k d); reflexivity.
Qed.

Lemma lookup_in_keys k d : In k (map fst d) -> exists x, lookup k d = Some x.
Proof.
  unfold lookup. induction d as [|[k' x] d IH]; cbn; [intros []|].
  destruct (String.eqb_spec k' k) as [->|Hne]; [eauto|].
  intros [E|Hin]; [contradiction | exact (IH Hin)].
Qed.

(** [zip_dict] on mappings that all have the keys [ks], in that order. *)
Lemma zip_dict_uniform ks (ds : list (list (string * value))) :
  ds <> [] -> NoDup ks -> Forall (fun d => map fst d = ks) ds ->
  zip_dict (map VDict ds)
  = inr (map (fun k => (k, column k (map VDict ds))) ks).
Proof.
  intros Hne Hnd Hks. unfold zip_dict.
  rewrite (mapM_result_pure dict_items
             (fun v => match v with VDict d => d | _ => [] end));
    [|apply Forall_forall; intros v Hv; apply in_map_iff in Hv;
      destruct Hv as [d [<- _]]; reflexivity].
  rewrite map_map, map_id. cbn [bind result_monad].
  assert (K : dedup [] (concat (map (map fst) ds)) = ks).
  { destruct ds as [|d0 ds']; [congruence|]. cbn [map concat].
    inversion Hks as [|? ? H0 Hks']; subst.
    apply dedup_fresh; [exact Hnd | intros k _ [] |].
    intros k Hk. left. apply in_concat in Hk. destruct Hk as [l [Hl Hk]].
    apply in_map_iff in Hl. destruct Hl as [d [<- Hd]].
    rewrite Forall_forall in Hks'. rewrite (Hks' _ Hd) in Hk. exact Hk. }
  rewrite K.
  apply mapM_result_pure. apply Forall_forall. intros k Hk.
  rewrite (mapM_result_pure _
             (fun v => match v with
                       | VDict d =>
                           match lookup k d with Some x => x | None => VNone end
                       | _ => VNone
                       end)); [reflexivity|].
  apply Forall_forall. intros v Hv. apply in_map_iff in Hv.
  destruct Hv as [d [<- Hd]]. rewrite dict_getitem_lookup.
  rewrite Forall_forall in Hks. rewrite <- (Hks _ Hd) in Hk.
  destruct (lookup_in_keys _ _ Hk) as [x ->]. reflexivity.
Qed.

(** *** Stacking arrays *)

Lemma slice_concat {A} (chunks : list (list A)) (n i : nat) :
  Forall (fun c => length c = n) chunks -> i < length chunks ->
  nth_error chunks i = Some (firstn n (skipn (i * n) (concat chunks))).
Proof.
  intros Hc. revert i. induction Hc as [|c t Hn _ IH]; intros i Hi;
    [cbn in Hi; lia|].
  destruct i as [|i]; cbn [nth_error concat].
  - cbn [Nat.mul skipn]. rewrite firstn_app, Hn, Nat.sub_diag.
    cbn [firstn]. rewrite app_nil_r, <- Hn, firstn_all. reflexivity.
  - cbn [length] in Hi. rewrite (IH i) by lia. f_equal. f_equal.
    replace (S i * n) with (length c + i * n) by (cbn; lia).
    rewrite skipn_app, Nat.add_comm, Nat.add_sub.
    rewrite (@skipn_all2 _ (i * n + length c) c) by apply Nat.le_add_l.
    reflexivity.
Qed.

Lemma fold_promote_same d (ds : list np_dtype) :
  Forall (eq d) ds -> fold_left promote_types ds d = d.
Proof.
  induction 1 as [|x t <- _ IH]; cbn; [reflexivity|].
  rewrite promote_types_same. exact IH.
Qed.

Lemma np_stack_same s d (arrays : list ndarray) :
  arrays <> [] ->
  Forall (fun a => arr_shape a = s /\ arr_dtype a = d) arrays ->
  np_stack (map VArray arrays) = inr (stack_of d s arrays).
Proof.
  intros Hne Ha. unfold np_stack.
  rewrite (mapM_result_pure asanyarray
             (fun v => match v with
                       | VArray a => a
                       | _ => mk_ndarray d [] []
                       end));
    [|apply Forall_forall; intros v Hv; apply in_map_iff in Hv;
      destruct Hv as [a [<- _]]; reflexivity].
  rewrite map_map, map_id. cbn [bind result_monad].
  destruct arrays as [|a0 rest]; [congruence|].
  inversion Ha as [|? ? [Hs0 Hd0] Hrest]; subst.
  assert (F : forallb (fun a =>
                         if list_eq_dec Nat.eq_dec (arr_shape a) (arr_shape a0)
                         then true else false) rest = true).
  { apply forallb_forall. intros a Hin. rewrite Forall_forall in Hrest.
    destruct (Hrest _ Hin) as [-> _].
    destruct (list_eq_dec Nat.eq_dec _ _); [reflexivity | congruence]. }
  rewrite F. cbn [ret result_monad]. unfold stack_of. f_equal.
  assert (D : fold_left promote_types (map arr_dtype rest) (arr_dtype a0)
              = arr_dtype a0).
  { apply fold_promote_same. apply Forall_forall. intros x Hx.
    apply in_map_iff in Hx. destruct Hx as [a [<- Hin]].
    rewrite Forall_forall in Hrest. destruct (Hrest _ Hin) as [_ ->].
    reflexivity. }
  rewrite D. f_equal. f_equal. apply map_ext_in. intros a Hin.
  assert (E : arr_dtype a = arr_dtype a0).
  { destruct Hin as [<-|Hin]; [reflexivity|].
    rewrite Forall_forall in Hrest. destruct (Hrest _ Hin) as [_ ->].
    reflexivity. }
  rewrite E. rewrite (map_ext _ (fun x => x)) by apply astype_same.
  apply map_id.
Qed.

Lemma slice_at_stack_of s d (arrays : list ndarray) i :
  Forall (fun a => arr_shape a = s /\ arr_dtype a = d /\
                   length (arr_data a) = size s) arrays ->
  i < length arrays ->
  nth_error arrays i = Some (slice_at (stack_of d s arrays) i).
Proof.
  intros Ha Hi. unfold slice_at, stack_of. cbn.
  destruct (nth_error arrays i) as [a|] eqn:N;
    [|apply nth_error_None in N; lia].
  assert (Hin : In a arrays) by (eapply nth_error_In; exact N).
  rewrite Forall_forall in Ha. destruct (Ha _ Hin) as [<- [<- Hlen]].
  pose proof (@slice_concat _ (map arr_data arrays) (size (arr_shape a)) i) as C.
  rewrite nth_error_map, N in C. cbn in C.
  rewrite length_map in C.
  assert (Hall : Forall (fun c => length c = size (arr_shape a))
                   (map arr_data arrays)).
  { apply Forall_forall. intros c Hc. apply in_map_iff in Hc.
    destruct Hc as [b [<- Hb]]. destruct (Ha _ Hb) as [Hsb [_ Hlb]].
    rewrite Hlb. reflexivity. }
  specialize (C Hall Hi). injection C as C. fold (size (arr_shape a)).
  rewrite <- C. destruct a; reflexivity.
Qed.

(** *** Values of a signature *)

Lemma has_sig_arrays s d steps :
  Forall (has_sig (SArray s d)) steps ->
  exists arrays,
    steps = map VArray arrays /\
    Forall (fun a => arr_shape a = s /\ arr_dtype a = d /\
                     length (arr_data a) = size s) arrays.
Proof.
  induction 1 as [|v t Hv _ [arrays [-> IH]]]; [exists []; split; constructor|].
  inversion Hv; subst. exists (a :: arrays). split; [reflexivity|].
  constructor; auto.
Qed.

Lemma has_sig_dicts items steps :
  Forall (has_sig (SDict items)) steps ->
  exists ds, steps = map VDict ds /\ Forall (sig_items items) ds.
Proof.
  induction 1 as [|v t Hv _ [ds [-> IH]]]; [exists []; split; constructor|].
  inversion Hv; subst. exists (d :: ds). split; [reflexivity|].
  constructor; auto.
Qed.

Lemma sig_items_keys items d : sig_items items d -> map fst d = map fst items.
Proof.
  induction 1 as [|it kv items d [E _] _ IH]; cbn; [reflexivity|].
  rewrite E, IH. reflexivity.
Qed.

Lemma sig_items_lookup items d k t :
  NoDup (map fst items) -> sig_items items d -> In (k, t) items ->
  exists x, lookup k d = Some x /\ has_sig t x.
Proof.
  intros Hnd Hs. induction Hs as [|[k0 t0] [k1 x1] items d [E Hx] _ IH];
    [intros []|].
  cbn in E. subst k1. cbn in Hnd. inversion Hnd as [|? ? Hk Hnd']; subst.
  unfold lookup. cbn [find fst].
  intros [[= -> ->]|Hin].
  - rewrite String.eqb_refl. eauto.
  - destruct (String.eqb_spec k0 k) as [->|Hne].
    + exfalso. apply Hk. apply in_map_iff. exists (k, t). auto.
    + exact (IH Hnd' Hin).
Qed.

Lemma column_length k steps : length (column k steps) = length steps.
Proof. apply length_map. Qed.

Lemma column_has_sig items ds k t :
  NoDup (map fst items) -> In (k, t) items ->
  Forall (sig_items items) ds ->
  Forall (has_sig t) (column k (map VDict ds)).
Proof.
  intros Hnd Hin Hds. unfold column. rewrite map_map.
  apply Forall_forall. intros v Hv. apply in_map_iff in Hv.
  destruct Hv as [d [<- Hd]]. rewrite Forall_forall in Hds.
  destruct (@sig_items_lookup items d k t Hnd (Hds _ Hd) Hin) as [x [-> Hx]].
  exact Hx.
Qed.

(** The merge of per-step values of one signature. *)
Lemma _stack_nested_sig (t : sig) :
  wf_sig t ->
  forall steps, steps <> [] -> Forall (has_sig t) steps ->
  exists out, _stack_nested steps = inr out /\ stacked t steps out.
Proof.
  induction t using sig_rect'; intros Hwf steps Hne Hsteps.
  - destruct (@has_sig_arrays s d steps Hsteps) as [arrays [-> Ha]].
    destruct arrays as [|a0 rest]; [now contradiction Hne|].
    exists (VArray (stack_of d s (a0 :: rest))). split.
    + unfold _stack_nested. cbn [map hd depth _stack_nested_rec stack_arrays].
      change (VArray a0 :: map VArray rest) with (map VArray (a0 :: rest)).
      rewrite (@np_stack_same s d (a0 :: rest)); [reflexivity | congruence |].
      eapply Forall_impl; [|exact Ha]. cbn. tauto.
    + constructor; [rewrite length_map; reflexivity | reflexivity |].
      intros i Hi. rewrite length_map in Hi. rewrite nth_error_map.
      rewrite (@slice_at_stack_of s d (a0 :: rest) i Ha Hi). reflexivity.
  - destruct steps as [|v rest]; [congruence|].
    exists (VList (v :: rest)). split; [|constructor].
    inversion Hsteps as [|? ? Hv _]; subst. inversion Hv; subst.
    destruct v; cbn in *; try reflexivity; congruence.
  - destruct (@has_sig_dicts items steps Hsteps) as [ds [-> Hds]].
    inversion Hwf as [| |? Hnd Hwfs]; subst.
    destruct ds as [|d0 ds']; [now contradiction Hne|].
    cbn [map]. rewrite _stack_nested_unfold.
    change (VDict d0 :: map VDict ds') with (map VDict (d0 :: ds')).
    rewrite (@zip_dict_uniform (map fst items) (d0 :: ds'));
      [|congruence | exact Hnd |].
    2:{ eapply Forall_impl; [|exact Hds]. intros d. apply sig_items_keys. }
    cbn [bind result_monad].
    set (steps := map VDict (d0 :: ds')) in *.
    assert (G : forall sub, incl sub items ->
                exists d',
                  mapM (fun '(k, sub_sequence) =>
                          v <- _stack_nested sub_sequence ;; ret (k, v))
                       (map (fun k => (k, column k steps)) (map fst sub))
                  = inr d' /\
                  Forall2 (fun it kv =>
                             fst it = fst kv /\
                             stacked (snd it) (column (fst it) steps) (snd kv))
                          sub d').
    { induction sub as [|[k t] sub IHsub]; intros Hincl.
      - exists []. split; [reflexivity | constructor].
      - assert (Hin : In (k, t) items) by (apply Hincl; now left).
        rewrite Forall_forall in H, Hwfs.
        destruct (H _ Hin (Hwfs _ Hin) (column k steps)) as [out [E S]].
        + intros C. apply (f_equal (@length _)) in C.
          rewrite column_length in C. discriminate.
        + exact (@column_has_sig items (d0 :: ds') k t Hnd Hin Hds).
        + destruct IHsub as [d' [E' F']].
          { intros x Hx. apply Hincl. now right. }
          exists ((k, out) :: d'). cbn [map mapM bind result_monad fst].
          rewrite E. cbn [bind result_monad ret] in E' |- *. rewrite E'.
          split; [reflexivity|]. constructor; [split; [reflexivity|exact S]|].
          exact F'. }
    destruct (G items (incl_refl _)) as [d' [E F]].
    exists (VDict d'). cbn [bind result_monad ret] in E |- *. rewrite E.
    split; [reflexivity|]. constructor. exact F.
Qed.

Lemma has_sig_topology t v : has_sig t v -> topology v = topo_of t.
Proof.
  revert v. induction t using sig_rect'; intros v Hv; inversion Hv; subst.
  - reflexivity.
  - destruct v; cbn in *; try reflexivity; congruence.
  - cbn. f_equal. clear Hv.
    match goal with F : Forall2 _ _ _ |- _ => revert H; induction F as
        [|[k t] [k' x] items d [E Hx] _ IH]; intros H end; [reflexivity|].
    cbn in E, Hx. subst k'. inversion H as [|? ? Ht Hts]; subst. cbn in Ht |- *.
    rewrite (Ht _ Hx), (IH Hts). reflexivity.
Qed.

Lemma stacked_topology t steps out :
  stacked t steps out -> topology out = topo_of t.
Proof.
  revert steps out. induction t using sig_rect'; intros steps out Hs;
    inversion Hs; subst; try reflexivity.
  cbn. f_equal. clear Hs.
  match goal with F : Forall2 _ _ _ |- _ => revert H; induction F as
      [|[k t] [k' x] items d [E Hx] _ IH]; intros H end; [reflexivity|].
  cbn in E, Hx. subst k'. inversion H as [|? ? Ht Hts]; subst. cbn in Ht |- *.
  rewrite (Ht _ _ Hx), (IH Hts). reflexivity.
Qed.

(** C2, amended (stacking).  For every non-empty sequence of per-step
    outputs of one signature (the same keys at every level, no key twice,
    and at each leaf position either arrays of one shape and element type or
    values that are neither arrays nor mappings) the merge returns a
    structure with the topology of the steps.  At a leaf position of arrays
    it holds one array whose shape is the number of steps followed by the
    common shape, with the common element type, whose slice at every
    position is the array of that step; at another leaf position it holds the
    plain list of the values of the steps, in order. *)
Theorem merge_stacks_per_leaf (t : sig) (steps : list value) :
  wf_sig t -> steps <> [] -> Forall (has_sig t) steps ->
  exists out,
    _stack_nested steps = inr out /\
    stacked t steps out /\
    Forall (fun step => topology out = topology step) steps.
Proof.
  intros Hwf Hne Hsteps.
  destruct (_stack_nested_sig Hwf Hne Hsteps) as [out [E S]].
  exists out. split; [exact E|]. split; [exact S|].
  eapply Forall_impl; [|exact Hsteps]. intros step Hs.
  rewrite (stacked_topology S), (has_sig_topology Hs). reflexivity.
Qed.

(** *** [tf.map_fn] on a merged structure *)

Lemma mapM_result_app {A B} (f : A -> result B) (l1 l2 : list A) :
  mapM f (l1 ++ l2)
  = (ys <- mapM f l1 ;; zs <- mapM f l2 ;; ret (ys ++ zs)).
Proof.
  induction l1 as [|x t IH]; cbn.
  - destruct (mapM f l2); reflexivity.
  - destruct (f x); [reflexivity|]. cbn in IH. rewrite IH.
    destruct (mapM f t); [reflexivity|].
    destruct (mapM f l2); reflexivity.
Qed.

(** A merged structure of arrays is made of tensors already. *)
Lemma nest_map_to_tensor (t : sig) :
  array_sig t ->
  forall steps out, stacked t steps out -> nest_map to_tensor out = inr out.
Proof.
  induction t using sig_rect'; intros Ha steps out Hs;
    inversion Ha; inversion Hs; subst; [reflexivity|].
  cbn [nest_map].
  rewrite (mapM_result_pure _ (fun kv => kv)); [rewrite map_id; reflexivity|].
  match goal with F : Forall2 _ _ _ |- _ => rename F into F2 end.
  match goal with F : Forall (fun it => array_sig _) _ |- _ =>
    rename F into Fa end.
  clear Ha Hs. revert H Fa.
  induction F2 as [|[k t] [k' x] items d [E Hx] _ IH]; intros H Fa;
    [constructor|].
  inversion H as [|? ? Ht Hts]; inversion Fa as [|? ? Hat Hats]; subst.
  cbn in *. constructor; [|exact (IH Hts Hats)].
  rewrite (Ht Hat _ _ Hx). reflexivity.
Qed.

(** Every leaf of a merged structure has the number of steps as its first
    dimension. *)
Lemma leading_dims_stacked (t : sig) :
  array_sig t ->
  forall steps out, stacked t steps out ->
  exists dims,
    mapM leading_dim (nest_flatten out) = inr dims /\
    Forall (eq (length steps)) dims /\
    length dims = sig_leaves t.
Proof.
  induction t using sig_rect'; intros Ha steps out Hs;
    inversion Ha; inversion Hs; subst.
  - exists [length steps]. cbn [nest_flatten mapM leading_dim].
    match goal with E : arr_shape _ = _ |- _ => rewrite E end.
    repeat split. constructor; [reflexivity | constructor].
  - cbn [nest_flatten sig_leaves].
    match goal with F : Forall2 _ _ _ |- _ => rename F into F2 end.
    match goal with F : Forall (fun it => array_sig _) _ |- _ =>
      rename F into Fa end.
    clear Ha Hs. revert H Fa.
    induction F2 as [|[k t] [k' x] items d [E Hx] _ IH]; intros H Fa.
    + exists []. repeat split. constructor.
    + inversion H as [|? ? Ht Hts]; inversion Fa as [|? ? Hat Hats]; subst.
      cbn in Ht, Hx, Hat.
      destruct (Ht Hat _ _ Hx) as [dims1 [E1 [A1 L1]]].
      destruct (IH Hts Hats) as [dims2 [E2 [A2 L2]]].
      exists (dims1 ++ dims2). cbn [flat_map map list_sum].
      rewrite mapM_result_app, E1, E2. split; [reflexivity|]. split.
      * apply Forall_app. split; [|exact A2].
        rewrite column_length in A1. exact A1.
      * rewrite length_app, L1, L2. reflexivity.
Qed.

Lemma sig_items_eq_columns items d :
  NoDup (map fst items) -> sig_items items d ->
  d = map (fun it => (fst it,
                      match lookup (fst it) d with
                      | Some x => x
                      | None => VNone
                      end)) items.
Proof.
  intros Hnd Hs.
  assert (G : forall d0, (forall k t, In (k, t) items ->
                            lookup k d0 = lookup k d) ->
              d = map (fun it => (fst it,
                                  match lookup (fst it) d0 with
                                  | Some x => x
                                  | None => VNone
                                  end)) items).
  { induction Hs as [|[k t] [k' x] items d [E Hx] Hs IH]; intros d0 Hd0;
      [reflexivity|].
    cbn in E. subst k'. cbn in Hnd. inversion Hnd as [|? ? Hk Hnd']; subst.
    cbn [map fst]. f_equal.
    - rewrite (Hd0 k t) by now left. unfold lookup. cbn.
      rewrite String.eqb_refl. reflexivity.
    - apply (IH Hnd'). intros k1 t1 Hin. rewrite (Hd0 k1 t1) by now right.
      unfold lookup. cbn. destruct (String.eqb_spec k k1) as [->|];
        [|reflexivity].
      exfalso. apply Hk. apply in_map_iff. exists (k1, t1). auto. }
  apply G. reflexivity.
Qed.

(** Reading position [i] of a merged structure gives back step [i]. *)
Lemma unstack_stacked (t : sig) :
  array_sig t -> wf_sig t ->
  forall steps out i,
    stacked t steps out -> Forall (has_sig t) steps -> i < length steps ->
    nest_map (read_slice i) out = inr (nth i steps VNone).
Proof.
  induction t using sig_rect'; intros Ha Hwf steps out i Hs Hsteps Hi;
    inversion Ha; inversion Hs; inversion Hwf; subst.
  - cbn. match goal with N : forall i, _ -> nth_error _ _ = _ |- _ =>
           rewrite (nth_error_nth _ _ VNone (N i Hi)) end. reflexivity.
  - destruct (@has_sig_dicts items steps Hsteps) as [ds [-> Hds]].
    rewrite length_map in Hi.
    assert (Hnth : nth i (map VDict ds) VNone = VDict (nth i ds [])).
    { rewrite <- (map_nth VDict). apply nth_indep. rewrite length_map.
      exact Hi. }
    rewrite Hnth.
    assert (Hdi : sig_items items (nth i ds [])).
    { rewrite Forall_forall in Hds. apply Hds. apply nth_In. exact Hi. }
    match goal with N : NoDup _ |- _ => rename N into Hnd end.
    rewrite (sig_items_eq_columns Hnd Hdi) at 1.
    cbn [nest_map].
    match goal with F : Forall2 _ _ _ |- _ => rename F into F2 end.
    match goal with F : Forall (fun it => array_sig _) _ |- _ =>
      rename F into Fa end.
    match goal with F : Forall (fun it => wf_sig _) _ |- _ =>
      rename F into Fw end.
    assert (G : forall sub, incl sub items ->
                forall d', Forall2 (fun it kv =>
                             fst it = fst kv /\
                             stacked (snd it)
                               (column (fst it) (map VDict ds)) (snd kv))
                           sub d' ->
                mapM (fun '(k, v) => v' <- nest_map (read_slice i) v ;;
                                     ret (k, v')) d'
                = inr (map (fun it => (fst it,
                                       match lookup (fst it) (nth i ds []) with
                                       | Some x => x
                                       | None => VNone
                                       end)) sub)).
    { intros sub Hincl d' F'.
      induction F' as [|[k t] [k' x] sub d' [E Hx] _ IH]; [reflexivity|].
      cbn in E, Hx. subst k'.
      assert (Hin : In (k, t) items) by (apply Hincl; now left).
      rewrite Forall_forall in H, Fa, Fw.
      cbn [mapM map fst].
      rewrite (H _ Hin (Fa _ Hin) (Fw _ Hin) (column k (map VDict ds)) x i Hx).
      - cbn [bind result_monad ret] in IH |- *. rewrite IH.
        + f_equal. f_equal. f_equal. unfold column. rewrite map_map.
          rewrite (nth_indep _ VNone
                     (match lookup k [] with Some x0 => x0 | None => VNone end)).
          * rewrite (map_nth (fun d0 => match lookup k d0 with
                                        | Some x0 => x0
                                        | None => VNone
                                        end)). reflexivity.
          * rewrite length_map. exact Hi.
        + intros y Hy. apply Hincl. now right.
      - exact (@column_has_sig items ds k t Hnd Hin Hds).
      - rewrite column_length, length_map. exact Hi. }
    rewrite (G items (incl_refl _) d F2). reflexivity.
Qed.

Lemma describes_is_description info t :
  describes info t -> is_description info = true.
Proof.
  revert info. induction t using sig_rect'; intros info Hd;
    inversion Hd; subst; [reflexivity|].
  cbn. apply forallb_forall. clear Hd.
  match goal with F : Forall2 _ _ _ |- _ => revert H; induction F as
      [|[k x] [k' t] d items [E Hx] _ IH]; intros H end; [intros ? []|].
  inversion H as [|? ? Ht Hts]; subst. cbn in Ht, Hx.
  intros kv [<-|Hin]; [exact (Ht _ Hx) | exact (IH Hts kv Hin)].
Qed.

Lemma map_description_compose (g1 : TensorInfo -> TensorInfo)
    (g2 : TensorInfo -> value) v :
  is_description v = true ->
  map_description g2 (map_description (fun t => VInfo (g1 t)) v)
  = map_description (fun t => g2 (g1 t)) v.
Proof.
  induction v using value_rect'; cbn; try discriminate; [|reflexivity].
  intros Hd. rewrite forallb_forall in Hd. f_equal. rewrite map_map.
  apply map_ext_in. intros [k x] Hin. rewrite Forall_forall in H.
  pose proof (H _ Hin (Hd _ Hin)) as E. cbn in E. rewrite E. reflexivity.
Qed.

Lemma self_dtype_eq (w : World St) info :
  fc_get_tensor_info (_feature (self w)) (inner w) = inr info ->
  is_description info = true ->
  self_dtype w = (inr (dtypes_of info), w).
Proof.
  intros Hinfo Hd. unfold self_dtype. cbn [bind M_monad].
  rewrite (get_tensor_info_eq w Hinfo Hd).
  set (g := fun t => {| shape := _length (self w) :: shape t;
                        dtype := dtype t |}).
  change (with_length (_length (self w))) with (fun t => VInfo (g t)).
  rewrite (map_nested_description _ (fun t => VDType (dtype t))).
  - rewrite map_description_compose by exact Hd. reflexivity.
  - apply is_description_map_description. exact Hd.
  - intros t _. reflexivity.
Qed.

Lemma mapM_getitem_column k (ds : list (list (string * value))) :
  Forall (fun d => In k (map fst d)) ds ->
  mapM (fun o => dict_getitem o k) (map VDict ds)
  = inr (column k (map VDict ds)).
Proof.
  intros Hk. unfold column. apply mapM_result_pure.
  apply Forall_forall. intros v Hv. apply in_map_iff in Hv.
  destruct Hv as [d [<- Hd]]. rewrite dict_getitem_lookup.
  rewrite Forall_forall in Hk.
  destruct (lookup_in_keys _ _ (Hk _ Hd)) as [x ->]. reflexivity.
Qed.

Lemma tensor_stack_same s d (arrays : list ndarray) :
  arrays <> [] ->
  Forall (fun a => arr_shape a = s /\ arr_dtype a = d) arrays ->
  tensor_stack d arrays = inr (stack_of d s arrays).
Proof.
  intros Hne Ha. unfold tensor_stack.
  destruct arrays as [|a0 rest]; [congruence|].
  assert (F1 : forallb (fun t => if np_dtype_eq_dec (arr_dtype t) d
                                 then true else false) (a0 :: rest) = true).
  { apply forallb_forall. intros a Hin. rewrite Forall_forall in Ha.
    destruct (Ha _ Hin) as [_ ->].
    destruct (np_dtype_eq_dec d d); [reflexivity | congruence]. }
  rewrite F1. inversion Ha as [|? ? [Hs0 Hd0] Hrest]; subst.
  assert (F2 : forallb (fun t =>
                          if list_eq_dec Nat.eq_dec (arr_shape t) (arr_shape a0)
                          then true else false) rest = true).
  { apply forallb_forall. intros a Hin. rewrite Forall_forall in Hrest.
    destruct (Hrest _ Hin) as [-> _].
    destruct (list_eq_dec Nat.eq_dec _ _); [reflexivity | congruence]. }
  rewrite F2. reflexivity.
Qed.

Lemma same_structure_describes (t : sig) :
  wf_sig t ->
  forall info v, describes info t -> has_sig t v ->
  same_structure (dtypes_of info) v = true.
Proof.
  induction t using sig_rect'; intros Hwf info v Hd Hv;
    inversion Hd; inversion Hv; inversion Hwf; subst; [reflexivity|].
  match goal with F : Forall2 _ d _ |- _ => rename F into Fd end.
  match goal with F : Forall2 _ items _ |- _ => rename F into Fv end.
  match goal with N : NoDup _ |- _ => rename N into Hnd end.
  match goal with F : Forall (fun it => wf_sig _) _ |- _ =>
    rename F into Fw end.
  unfold dtypes_of. cbn [map_description same_structure].
  apply andb_true_iff. split.
  - rewrite length_map. apply Nat.eqb_eq.
    rewrite (Forall2_length Fd), (Forall2_length Fv). reflexivity.
  - rewrite forallb_forall. intros [k x] Hin.
    apply in_map_iff in Hin. destruct Hin as [[k' xi] [E Hin]].
    injection E as <- <-.
    assert (G : exists t, In (k', t) items /\ describes xi t).
    { clear -Fd Hin. induction Fd as [|[k1 x1] [k2 t2] d items [E Hx] _ IH];
        [destruct Hin|].
      cbn in E, Hx. subst k2. destruct Hin as [[= -> ->]|Hin].
      - exists t2. split; [now left | exact Hx].
      - destruct (IH Hin) as [t [Ht Hd]]. exists t. split; [now right|].
        exact Hd. }
    destruct G as [t [Ht Hxd]].
    destruct (@sig_items_lookup items d0 k' t Hnd Fv Ht) as [y [Hy Hys]].
    rewrite lookup_find, Hy. rewrite Forall_forall in H, Fw.
    exact (H _ Ht (Fw _ Ht) xi y Hxd Hys).
Qed.

(** Stacking the results of the loop, leaf by leaf of [self.dtype]. *)
Lemma stack_results_sig (t : sig) :
  wf_sig t ->
  forall info outs,
    describes info t -> outs <> [] -> Forall (has_sig t) outs ->
    exists out, stack_results (dtypes_of info) outs = inr out /\
                stacked t outs out.
Proof.
  induction t using sig_rect'; intros Hwf info outs Hd Hne Houts;
    inversion Hd; inversion Hwf; subst.
  - destruct (@has_sig_arrays s _ outs Houts) as [arrays [-> Ha]].
    assert (Hne' : arrays <> []) by (intros ->; now apply Hne).
    exists (VArray (stack_of (as_numpy_dtype (dtype ti)) s arrays)). split.
    + unfold dtypes_of. cbn [map_description stack_results].
      rewrite (mapM_result_pure asanyarray
                 (fun v => match v with
                           | VArray a => a
                           | _ => mk_ndarray (as_numpy_dtype (dtype ti)) [] []
                           end));
        [|apply Forall_forall; intros v Hv; apply in_map_iff in Hv;
          destruct Hv as [a [<- _]]; reflexivity].
      rewrite map_map, map_id. cbn [bind result_monad].
      rewrite (@tensor_stack_same s _ arrays Hne'); [reflexivity|].
      eapply Forall_impl; [|exact Ha]. cbn. tauto.
    + constructor; [rewrite length_map; reflexivity | reflexivity |].
      intros i Hi. rewrite length_map in Hi. rewrite nth_error_map.
      rewrite (@slice_at_stack_of s _ arrays i Ha Hi). reflexivity.
  - destruct (@has_sig_dicts items outs Houts) as [ds [-> Hds]].
    match goal with F : Forall2 _ d _ |- _ => rename F into Fd end.
    match goal with N : NoDup _ |- _ => rename N into Hnd end.
    match goal with F : Forall (fun it => wf_sig _) _ |- _ =>
      rename F into Fw end.
    unfold dtypes_of. cbn [map_description stack_results].
    set (outs := map VDict ds) in *.
    assert (G : forall subd sub, incl sub items ->
                Forall2 (fun kv it => fst kv = fst it /\
                                      describes (snd kv) (snd it)) subd sub ->
                exists d',
                  mapM (fun '(k, sub) =>
                          vs <- mapM (fun o => dict_getitem o k) outs ;;
                          r <- stack_results sub vs ;;
                          ret (k, r))
                       (map (fun '(k, x) => (k, dtypes_of x)) subd)
                  = inr d' /\
                  Forall2 (fun it kv =>
                             fst it = fst kv /\
                             stacked (snd it) (column (fst it) outs) (snd kv))
                          sub d').
    { intros subd sub Hincl F'.
      induction F' as [|[k x] [k' t] subd sub [E Hx] _ IH].
      - exists []. split; [reflexivity | constructor].
      - cbn in E, Hx. subst k'.
        assert (Hin : In (k, t) items) by (apply Hincl; now left).
        rewrite Forall_forall in H, Fw.
        destruct (H _ Hin (Fw _ Hin) x (column k outs) Hx) as [out [E S]].
        + intros C. apply (f_equal (@length _)) in C.
          rewrite column_length in C. unfold outs in C.
          rewrite length_map in C. destruct ds; [now apply Hne | discriminate].
        + exact (@column_has_sig items ds k t Hnd Hin Hds).
        + destruct IH as [d' [E' F'']].
          { intros y Hy. apply Hincl. now right. }
          exists ((k, out) :: d'). cbn [map mapM].
          unfold outs at 1. rewrite mapM_getitem_column.
          * fold outs. cbn [bind result_monad ret] in E' |- *.
            rewrite E. rewrite E'.
            split; [reflexivity|].
            constructor; [split; [reflexivity | exact S] | exact F''].
          * eapply Forall_impl; [|exact Hds]. intros d0 Hd0.
            rewrite (sig_items_keys Hd0). apply in_map_iff.
            exists (k, t). auto. }
    destruct (G d items (incl_refl _) Fd) as [d' [E F]].
    exists (VDict d'). split; [|constructor; exact F].
    cbn [bind result_monad ret] in E |- *.
    unfold dtypes_of in E. rewrite E. reflexivity.
Qed.

Lemma map_nth_seq {A} (l : list A) (d : A) :
  map (fun i => nth i l d) (seq 0 (length l)) = l.
Proof.
  induction l as [|x t IH]; [reflexivity|].
  cbn [length seq map nth]. f_equal.
  rewrite <- seq_shift, map_map. exact IH.
Qed.

Lemma Forall2_nth {A B} (R : A -> B -> Prop) l1 l2 i d1 d2 :
  Forall2 R l1 l2 -> i < length l1 -> R (nth i l1 d1) (nth i l2 d2).
Proof.
  intros F. revert i. induction F as [|x y l1 l2 Hxy _ IH]; intros i Hi;
    [cbn in Hi; lia|].
  destruct i as [|i]; [exact Hxy|]. cbn in Hi |- *. apply IH. lia.
Qed.

(** [tf.map_fn] over the merge of [encs], with a function that maps them to
    [decs], returns the merge of [decs]. *)
Lemma map_fn_stacked (fn : value -> result value) (te td : sig)
    (info : value) (encs decs : list value) (enc : value) :
  array_sig te -> wf_sig te -> sig_leaves te <> 0 ->
  Forall (has_sig te) encs -> stacked te encs enc ->
  Forall2 (fun e d => fn e = inr d) encs decs ->
  encs <> [] ->
  wf_sig td -> describes info td -> Forall (has_sig td) decs ->
  exists out,
    map_fn fn enc (dtypes_of info) = inr out /\ stacked td decs out.
Proof.
  intros Hae Hwe Hle Hencs Hs Hfn Hne Hwd Hdesc Hdecs.
  pose proof (Forall2_length Hfn) as Hlen.
  unfold map_fn.
  change (fun e => a <- asanyarray e ;; ret (VArray a)) with to_tensor.
  rewrite (nest_map_to_tensor Hae Hs). cbn [bind result_monad].
  destruct (leading_dims_stacked Hae Hs) as [dims [Ed [Ad Ld]]].
  rewrite Ed. cbn [bind result_monad].
  destruct dims as [|n rest]; [cbn in Ld; congruence|].
  inversion Ad as [|? ? Hn Hrest]; subst n.
  assert (Fr : forallb (Nat.eqb (length encs)) rest = true).
  { apply forallb_forall. intros m Hm. rewrite Forall_forall in Hrest.
    rewrite <- (Hrest _ Hm). apply Nat.eqb_refl. }
  rewrite Fr.
  rewrite (mapM_result_pure _ (fun i => nth i decs VNone)).
  - cbn [bind result_monad]. rewrite Hlen, map_nth_seq.
    apply stack_results_sig; try assumption.
    intros ->. apply Forall2_length in Hfn. destruct encs; [congruence|].
    discriminate.
  - apply Forall_forall. intros i Hi. apply in_seq in Hi.
    assert (Hi' : i < length encs) by lia.
    rewrite (unstack_stacked Hae Hwe Hs Hencs Hi'). cbn [bind result_monad].
    rewrite (Forall2_nth VNone VNone Hfn Hi'). cbn [bind result_monad].
    rewrite (same_structure_describes Hwd Hdesc); [reflexivity|].
    rewrite Forall_forall in Hdecs. apply Hdecs. apply nth_In. lia.
Qed.

Lemma mapM_feature_encode_example (sf : Sequence St) (st : St)
    (records encs : list value) :
  Forall2 (fun r e => fc_encode_example (_feature sf) st r = inr e)
          records encs ->
  forall calls,
    mapM (feature_encode_example (St := St)) records
         {| self := sf; inner := st; encoder_calls := calls |}
    = (inr encs,
       {| self := sf; inner := st;
          encoder_calls := rev records ++ calls |}).
Proof.
  induction 1 as [|r e records encs Hre _ IH]; intros calls; [reflexivity|].
  cbn [mapM bind M_monad]. unfold feature_encode_example at 1.
  unfold call_feature, modify. cbn. rewrite Hre.
  cbn in IH. rewrite IH. rewrite <- app_assoc. reflexivity.
Qed.

(** The branch of [encode_example] that encodes and merges. *)
Lemma encode_example_merge (w : World St) (te : sig)
    (example : value) (records encs : list value) :
  _transpose_dict_list example = inr records -> records <> [] ->
  length_ok w (length records) ->
  Forall2 (fun r e =>
             fc_encode_example (_feature (self w)) (inner w) r = inr e)
          records encs ->
  wf_sig te -> Forall (has_sig te) encs ->
  exists enc,
    encode_example example w
    = (inr enc, {| self := self w; inner := inner w;
                   encoder_calls := rev records ++ encoder_calls w |}) /\
    stacked te encs enc.
Proof.
  intros Htr Hne Hlen Henc Hwf Hsig.
  destruct records as [|r rs]; [congruence|].
  rewrite (encode_example_steps w example Htr Hlen).
  cbn [bind M_monad]. destruct w as [sf st calls]. cbn [self inner] in *.
  rewrite (mapM_feature_encode_example sf st Henc calls).
  assert (Hne' : encs <> []).
  { intros ->. inversion Henc. }
  destruct (_stack_nested_sig Hwf Hne' Hsig) as [enc [E S]].
  exists enc. rewrite E. split; [reflexivity | exact S].
Qed.

Lemma describes_array_sig info t : describes info t -> array_sig t.
Proof.
  revert info. induction t using sig_rect'; intros info Hd;
    inversion Hd; subst; constructor.
  clear Hd.
  match goal with F : Forall2 _ _ _ |- _ => revert H; induction F as
      [|[k x] [k' t] d items [E Hx] _ IH]; intros H end; [constructor|].
  inversion H as [|? ? Ht Hts]; subst. cbn in Ht, Hx.
  constructor; [exact (Ht _ Hx) | exact (IH Hts)].
Qed.

(** C5, amended (round trip).  Take an input that transposes to a non-empty
    sequence of records of the configured length, a wrapped feature that
    encodes every record to arrays of one signature (one shape and element
    type at each leaf, at least one leaf) and decodes every encoded record to
    arrays of the signature its description declares.  Then [decode_example]
    applied to the result of
    [encode_example] returns a structure with the topology of the decoded
    steps whose slices at position [i], leaf by leaf, are the wrapped
    feature's decoding of its encoding of record [i], for every position, in
    the order of the records. *)
Theorem decode_encode_commutes_with_sequencing (w : World St)
    (example info : value) (records encs decs : list value) (te td : sig) :
  _transpose_dict_list example = inr records -> records <> [] ->
  length_ok w (length records) ->
  Forall2 (fun r e =>
             fc_encode_example (_feature (self w)) (inner w) r = inr e)
          records encs ->
  wf_sig te -> array_sig te -> sig_leaves te <> 0 ->
  Forall (has_sig te) encs ->
  Forall2 (fun e d =>
             fc_decode_example (_feature (self w)) (inner w) e = inr d)
          encs decs ->
  wf_sig td -> Forall (has_sig td) decs ->
  fc_get_tensor_info (_feature (self w)) (inner w) = inr info ->
  describes info td ->
  exists enc w' out,
    encode_example example w = (inr enc, w') /\
    decode_example enc w' = (inr out, w') /\
    forall i r,
      nth_error records i = Some r ->
      exists e d,
        fc_encode_example (_feature (self w)) (inner w) r = inr e /\
        fc_decode_example (_feature (self w)) (inner w) e = inr d /\
        nest_map (read_slice i) out = inr d /\
        topology out = topology d.
Proof.
  intros Htr Hne Hlen Henc Hwe Hae Hle Hencs Hdec Hwd Hdecs Hinfo Hdesc.
  destruct (encode_example_merge w example Htr Hne Hlen Henc Hwe Hencs)
    as [enc [Eenc Senc]].
  set (w' := {| self := self w; inner := inner w;
                encoder_calls := rev records ++ encoder_calls w |}) in *.
  assert (Hne' : encs <> []).
  { intros ->. inversion Henc. subst. congruence. }
  destruct (@map_fn_stacked
              (fc_decode_example (_feature (self w)) (inner w))
              te td info encs decs enc Hae Hwe Hle Hencs Senc Hdec Hne'
              Hwd Hdesc Hdecs) as [out [Eout Sout]].
  exists enc, w', out. split; [exact Eenc|]. split.
  - unfold decode_example. cbn [bind M_monad].
    rewrite (@self_dtype_eq w' info Hinfo (describes_is_description Hdesc)).
    unfold call_feature. cbn [self inner w']. rewrite Eout. reflexivity.
  - intros i r Hr.
    assert (Hi : i < length records) by (apply nth_error_Some; congruence).
    pose proof (Forall2_length Henc) as L1.
    pose proof (Forall2_length Hdec) as L2.
    exists (nth i encs VNone), (nth i decs VNone).
    pose proof (Forall2_nth VNone VNone Henc Hi) as E1.
    rewrite (nth_error_nth _ _ VNone Hr) in E1.
    split; [exact E1|]. split.
    + apply (Forall2_nth VNone VNone Hdec). lia.
    + split.
      * apply (unstack_stacked (describes_array_sig Hdesc) Hwd Sout Hdecs).
        lia.
      * rewrite (stacked_topology Sout). symmetry. apply has_sig_topology.
        rewrite Forall_forall in Hdecs. apply Hdecs. apply nth_In. lia.
Qed.

(** *** More on the transposition *)

Lemma transposed_list (l : list value) :
  transposed (VList l) (length l) = l /\
  transposed (VTuple l) (length l) = l.
Proof.
  unfold transposed, step_record. cbn [map_leaves].
  change (items_of (VList l)) with l. change (items_of (VTuple l)) with l.
  rewrite map_nth_seq. split; reflexivity.
Qed.

(** X1.  A list (or tuple) of per-step records given as the whole input is
    transposed to the list of those records, in order, whatever the records
    are; the empty list gives no record. *)
Theorem transpose_list_of_records (l : list value) :
  _transpose_dict_list (VList l) = inr l /\
  _transpose_dict_list (VTuple l) = inr l.
Proof.
  destruct (transposed_list l) as [E1 E2]. split.
  - rewrite _transpose_dict_list_eq by (repeat constructor).
    cbn [leaves map check_lengths]. change (items_of (VList l)) with l.
    rewrite E1. reflexivity.
  - rewrite _transpose_dict_list_eq by (repeat constructor).
    cbn [leaves map check_lengths]. change (items_of (VTuple l)) with l.
    rewrite E2. reflexivity.
Qed.

Lemma at_path_map_leaves (g : value -> value) path v x :
  leaf_at path v = Some x ->
  at_path path (map_leaves g v) = Some (g x).
Proof.
  revert v. induction path as [|k rest IH]; intros v.
  - destruct v; cbn; try discriminate; intros [= <-]; reflexivity.
  - destruct v; cbn; try discriminate.
    rewrite lookup_map. destruct (lookup k d) as [y|]; [|discriminate].
    cbn. apply IH.
Qed.

Lemma transpose_common_length (example : value) (n : nat) :
  leaves example <> [] ->
  Forall (fun x => is_sequence_leaf x = true /\ length (items_of x) = n)
         (leaves example) ->
  _transpose_dict_list example = inr (transposed example n).
Proof.
  intros Hne Hl. rewrite _transpose_dict_list_eq.
  2:{ eapply Forall_impl; [|exact Hl]. cbn. tauto. }
  destruct (leaves example) as [|x t] eqn:E; [congruence|].
  apply Forall_cons_iff in Hl. destruct Hl as [[_ Hx] Ht].
  cbn [map check_lengths]. rewrite Hx, check_lengths_agree; [reflexivity|].
  apply Forall_forall. intros m Hm. apply in_map_iff in Hm.
  destruct Hm as [y [<- Hy]]. rewrite Forall_forall in Ht.
  symmetry. apply (Ht _ Hy).
Qed.

(** X2.  For an input with at least one leaf whose leaves are all sequences
    of one length [n], the transposition returns exactly [n] records, and
    record [i] holds, at the place of every leaf of the input, the [i]-th
    element of that leaf. *)
Theorem transpose_reads_leaves_in_lock_step (example : value) (n : nat) :
  leaves example <> [] ->
  Forall (fun x => is_sequence_leaf x = true /\ length (items_of x) = n)
         (leaves example) ->
  exists records,
    _transpose_dict_list example = inr records /\
    length records = n /\
    forall i record,
      nth_error records i = Some record ->
      forall path x,
        leaf_at path example = Some x ->
        at_path path record = nth_error (items_of x) i.
Proof.
  intros Hne Hl. exists (transposed example n).
  split; [exact (transpose_common_length example Hne Hl)|].
  assert (Hlen : length (transposed example n) = n)
    by (unfold transposed; rewrite length_map, length_seq; reflexivity).
  split; [exact Hlen|].
  intros i record Hr path x Hx.
  assert (Hi : i < n).
  { rewrite <- Hlen. apply nth_error_Some. congruence. }
  unfold transposed in Hr. rewrite nth_error_map, nth_error_seq in Hr.
  apply Nat.ltb_lt in Hi. rewrite Hi in Hr. cbn in Hr. injection Hr as <-.
  unfold step_record. rewrite (at_path_map_leaves _ path example Hx).
  assert (Hin : In x (leaves example)).
  { clear -Hx. revert example Hx. induction path as [|k rest IH]; intros v.
    - destruct v; cbn; try discriminate; intros [= <-]; now left.
    - destruct v; cbn; try discriminate.
      destruct (lookup k d) as [y|] eqn:E; [|discriminate]. intros Hy.
      apply in_flat_map. exists (k, y). split; [|exact (IH _ Hy)].
      apply lookup_In. exact E. }
  rewrite Forall_forall in Hl. destruct (Hl _ Hin) as [_ Hxn].
  symmetry. apply nth_error_nth'. apply Nat.ltb_lt in Hi. lia.
Qed.

Lemma mapM_result_inputs {A B} (f : A -> result B) (l : list A) ys :
  mapM f l = inr ys -> Forall (fun x => exists y, f x = inr y) l.
Proof.
  revert ys. induction l as [|x t IH]; intros ys; cbn; [constructor|].
  destruct (f x) as [e|y] eqn:Hx; [discriminate|].
  cbn in IH. destruct (mapM f t) as [e|ys'] eqn:Ht; [discriminate|].
  intros _. constructor; [eauto | eapply IH; reflexivity].
Qed.

Lemma map_nested_result_inputs (f : value -> result value) (v v' : value) :
  map_nested f true v = inr v' ->
  Forall (fun x => exists y, f x = inr y) (leaves v).
Proof.
  intros E.
  pose proof (map_nested_result_M f true v) as T. rewrite E in T.
  pose proof (map_nested_leaves (lifted (S := unit) f) v tt) as G.
  rewrite (mapM_result_M _ f) in G
    by (apply Forall_forall; intros; reflexivity).
  destruct (mapM f (leaves v)) as [e|ys] eqn:Hm.
  - rewrite G in T. discriminate.
  - exact (mapM_result_inputs f (leaves v) Hm).
Qed.

(** X3.  [encode_example] returns a value only for an input with at least
    one leaf, whose leaves are all lists, tuples or arrays with an axis, of
    one common length, a length that is the configured one when a static
    length is configured. *)
Theorem encode_example_success_requires (w w' : World St)
    (example out : value) :
  encode_example example w = (inr out, w') ->
  exists n,
    leaves example <> [] /\
    Forall (fun x => is_sequence_leaf x = true /\ length (items_of x) = n)
           (leaves example) /\
    _transpose_dict_list example = inr (transposed example n) /\
    length_ok w n.
Proof.
  intros E.
  destruct (_transpose_dict_list example) as [e|records] eqn:T.
  { rewrite (encode_example_transpose_error w example T) in E. discriminate. }
  assert (Hseq : Forall (fun x => is_sequence_leaf x = true) (leaves example)).
  { unfold _transpose_dict_list in T.
    destruct (map_nested np_to_list true example) as [e|dl] eqn:N;
      [discriminate|].
    eapply Forall_impl; [|exact (map_nested_result_inputs _ _ N)].
    intros x. apply np_to_list_succeeds_iff. }
  pose proof (_transpose_dict_list_eq example Hseq) as T'. rewrite T in T'.
  destruct (check_lengths None _) as [e|[n|]] eqn:C; try discriminate.
  injection T' as ->. exists n.
  pose proof (check_lengths_Some _ _ C) as [Hall _].
  split; [|split; [|split]].
  - intros Hl. rewrite Hl in C. discriminate.
  - apply Forall_forall. intros x Hx. rewrite Forall_forall in Hseq, Hall.
    split; [exact (Hseq _ Hx)|]. symmetry. apply Hall.
    apply in_map_iff. eauto.
  - reflexivity.
  - unfold length_ok. destruct (_length (self w)) as [l|] eqn:L; [|exact I].
    destruct (Z.eq_dec l (Z.of_nat (length (transposed example n))))
      as [->|Hne].
    + unfold transposed. rewrite length_map, length_seq. reflexivity.
    + rewrite (encode_example_static_mismatch w example T L Hne) in E.
      discriminate.
Qed.

(** *** The calls to the wrapped encoder *)

(** X4.  On a non-empty transposed sequence of the configured length whose
    records the wrapped encoder all accepts, [encode_example] calls the
    encoder once per record, in the order of the records, changes nothing
    else, and returns (or raises) what the merge of the encoded records
    does. *)
Theorem encode_example_encodes_each_record_once (w : World St)
    (example : value) (records encs : list value) :
  _transpose_dict_list example = inr records -> records <> [] ->
  length_ok w (length records) ->
  Forall2 (fun r e =>
             fc_encode_example (_feature (self w)) (inner w) r = inr e)
          records encs ->
  encode_example example w
  = (_stack_nested encs,
     {| self := self w; inner := inner w;
        encoder_calls := rev records ++ encoder_calls w |}).
Proof.
  intros Htr Hne Hlen Henc.
  destruct records as [|r rs]; [congruence|].
  rewrite (encode_example_steps w example Htr Hlen).
  cbn [bind M_monad]. destruct w as [sf st calls]. cbn [self inner] in *.
  rewrite (mapM_feature_encode_example sf st Henc calls).
  destruct (_stack_nested encs); reflexivity.
Qed.

(** X5.  When the wrapped encoder raises on a record, [encode_example]
    raises that same exception; the encoder has been called on the records
    up to and including that one, in order, and on none after it. *)
Theorem encode_example_propagates_encoder_error (w : World St)
    (example : value) (pre post encs : list value) (r : value) (e : exn) :
  _transpose_dict_list example = inr (pre ++ r :: post) ->
  length_ok w (length (pre ++ r :: post)) ->
  Forall2 (fun r e =>
             fc_encode_example (_feature (self w)) (inner w) r = inr e)
          pre encs ->
  fc_encode_example (_feature (self w)) (inner w) r = inl e ->
  encode_example example w
  = (inl e,
     {| self := self w; inner := inner w;
        encoder_calls := r :: rev pre ++ encoder_calls w |}).
Proof.
  intros Htr Hlen Henc Hr.
  destruct (pre ++ r :: post) as [|r0 rs] eqn:E;
    [destruct pre; discriminate|].
  rewrite (encode_example_steps w example Htr Hlen).
  rewrite <- E. cbn [bind M_monad]. rewrite mapM_app_M.
  destruct w as [sf st calls]. cbn [self inner] in *.
  rewrite (mapM_feature_encode_example sf st Henc calls).
  cbn [mapM bind M_monad]. unfold feature_encode_example at 1.
  unfold call_feature, modify. cbn. rewrite Hr. reflexivity.
Qed.

(** *** Transposing and merging back *)

Lemma lookup_unique k x (d : list (string * value)) :
  NoDup (map fst d) -> In (k, x) d -> lookup k d = Some x.
Proof.
  unfold lookup. induction d as [|[k' y] d IH]; [intros _ []|].
  cbn. intros Hnd Hin. inversion Hnd as [|? ? Hk Hnd']; subst.
  destruct Hin as [[= -> ->]|Hin].
  - rewrite String.eqb_refl. reflexivity.
  - destruct (String.eqb_spec k' k) as [->|]; [|exact (IH Hnd' Hin)].
    exfalso. apply Hk. apply in_map_iff. exists (k, x). auto.
Qed.

Lemma transposed_dict d n :
  transposed (VDict d) n
  = map VDict (map (fun i => map (fun '(k, x) => (k, step_record x i)) d)
                   (seq 0 n)).
Proof. unfold transposed. rewrite map_map. reflexivity. Qed.

Lemma column_transposed k x d n :
  NoDup (map fst d) -> In (k, x) d ->
  column k (transposed (VDict d) n) = transposed x n.
Proof.
  intros Hnd Hin. unfold column, transposed. rewrite map_map.
  apply map_ext. intros i. unfold step_record at 1. cbn [map_leaves].
  rewrite (lookup_map (map_leaves (fun x0 => nth i (items_of x0) VNone))).
  rewrite (lookup_unique k x d Hnd Hin). reflexivity.
Qed.

Lemma _stack_nested_leaf (x : value) (n : nat) :
  is_dict x = false -> 0 < n ->
  length (items_of x) = n -> Forall is_raw (items_of x) ->
  _stack_nested (transposed x n) = inr (coerced x).
Proof.
  intros Hx Hn Hlen Hraw.
  assert (E : transposed x n = items_of x).
  { unfold transposed. rewrite <- Hlen.
    etransitivity; [|apply (map_nth_seq (items_of x) VNone)].
    apply map_ext. intros i. unfold step_record.
    destruct x; try reflexivity; discriminate. }
  rewrite E. unfold coerced.
  destruct (items_of x) as [|y ys]; [cbn in Hlen; lia|].
  inversion Hraw as [|? ? [Hy1 Hy2] _]; subst.
  destruct y; cbn in *; try reflexivity; congruence.
Qed.

Lemma _stack_nested_transposed (v : value) (n : nat) :
  unique_keys v -> 0 < n ->
  Forall (fun x => length (items_of x) = n /\ Forall is_raw (items_of x))
         (leaves v) ->
  _stack_nested (transposed v n) = inr (map_leaves coerced v).
Proof.
  intros Hu Hn. induction v using value_rect'; intros Hl;
    try (inversion Hl as [|? ? [Hlen Hraw] _]; subst;
         apply _stack_nested_leaf; [reflexivity | assumption | reflexivity
                                   | assumption]).
  inversion Hu as [? Hd|? Hnd Hus]; [discriminate|]. subst.
  rewrite transposed_dict.
  destruct n as [|n']; [lia|].
  set (ds := map (fun i => map (fun '(k, x) => (k, step_record x i)) d)
                 (seq 0 (S n'))).
  assert (Hds : ds <> []) by discriminate.
  assert (Hkeys : Forall (fun d0 => map fst d0 = map fst d) ds).
  { apply Forall_forall. intros d0 Hd0. apply in_map_iff in Hd0.
    destruct Hd0 as [i [<- _]]. rewrite map_map. apply map_ext.
    intros [k x]. reflexivity. }
  assert (Hst : map VDict ds = VDict (nth 0 ds []) :: map VDict (tl ds))
    by reflexivity.
  rewrite Hst, _stack_nested_unfold, <- Hst.
  rewrite (zip_dict_uniform Hds Hnd Hkeys). cbn [bind result_monad].
  assert (G : forall sub, incl sub d ->
              mapM (fun '(k, sub_sequence) =>
                      v <- _stack_nested sub_sequence ;; ret (k, v))
                   (map (fun k => (k, column k (map VDict ds))) (map fst sub))
              = inr (map (fun '(k, x) => (k, map_leaves coerced x)) sub)).
  { induction sub as [|[k x] sub IHsub]; intros Hincl; [reflexivity|].
    assert (Hin : In (k, x) d) by (apply Hincl; now left).
    cbn [map fst mapM].
    unfold ds. rewrite <- transposed_dict.
    rewrite (@column_transposed k x d (S n') Hnd Hin).
    rewrite Forall_forall in H, Hus.
    pose proof (H _ Hin (Hus _ Hin)) as Hx. cbn [snd] in Hx. rewrite Hx.
    - cbn [bind result_monad ret].
      rewrite transposed_dict. fold ds.
      cbn [bind result_monad ret] in IHsub. rewrite IHsub; [reflexivity|].
      intros y Hy. apply Hincl. now right.
    - apply Forall_forall. intros y Hy. rewrite Forall_forall in Hl.
      apply Hl. cbn [leaves]. apply in_flat_map. exists (k, x). auto. }
  pose proof (G d (incl_refl _)) as Gd.
  cbn [bind result_monad ret] in Gd |- *. rewrite Gd. reflexivity.
Qed.

(** X6.  Transposing and merging are inverse to each other up to the
    coercion of the leaves: for an input with at least one leaf, whose
    leaves are sequences of one length [n >= 1] of values that are neither
    arrays nor mappings, merging the transposed records gives the input back
    with every leaf turned into the list of its elements. *)
Theorem transpose_then_merge (example : value) (n : nat) :
  unique_keys example -> 0 < n -> leaves example <> [] ->
  Forall (fun x => is_sequence_leaf x = true /\ length (items_of x) = n /\
                   Forall is_raw (items_of x))
         (leaves example) ->
  exists records,
    _transpose_dict_list example = inr records /\
    _stack_nested records = inr (map_leaves coerced example).
Proof.
  intros Hu Hn Hne Hl. exists (transposed example n). split.
  - apply transpose_common_length; [exact Hne|].
    eapply Forall_impl; [|exact Hl]. cbn. tauto.
  - apply _stack_nested_transposed; [exact Hu | exact Hn |].
    eapply Forall_impl; [|exact Hl]. cbn. tauto.
Qed.

(** *** Arrays through [np_to_list] and [stack_arrays] *)

Lemma concat_chunks {A} (c n : nat) : forall data : list A,
  length data = n * c ->
  concat (map (fun i => firstn c (skipn (i * c) data)) (seq 0 n)) = data.
Proof.
  induction n as [|n IH]; intros data Hlen.
  - destruct data; [reflexivity | discriminate].
  - cbn [seq map concat]. rewrite <- seq_shift, map_map.
    change (skipn (0 * c) data) with data.
    rewrite (map_ext _ (fun i => firstn c (skipn (i * c) (skipn c data)))).
    + rewrite IH; [apply firstn_skipn|].
      rewrite length_skipn, Hlen. cbn. lia.
    + intros i. rewrite skipn_skipn. f_equal. f_equal. cbn. lia.
Qed.

(** X7.  An array with at least two axes and a non-empty first axis comes
    back unchanged from [np_to_list] followed by [stack_arrays]: the list
    has one sub-array per position along the first axis, and stacking them
    gives the array. *)
Theorem array_unstack_then_stack (a : ndarray) (n m : nat) (s : list nat) :
  arr_shape a = n :: m :: s -> 0 < n ->
  length (arr_data a) = size (n :: m :: s) ->
  exists l,
    np_to_list (VArray a) = inr (VList l) /\
    length l = n /\
    stack_arrays l = inr (VArray a).
Proof.
  intros Hs Hn Hlen.
  exists (map VArray (map (slice_at a) (seq 0 n))). split; [|split].
  - cbn [np_to_list]. rewrite (ndarray_to_list_items a Hs).
    cbn [bind result_monad ret]. rewrite map_map. f_equal. f_equal.
    apply map_ext. intros i. unfold array_item. rewrite Hs. reflexivity.
  - rewrite !length_map, length_seq. reflexivity.
  - destruct n as [|n']; [lia|].
    assert (E : map VArray (map (slice_at a) (seq 0 (S n')))
                = VArray (slice_at a 0)
                  :: map VArray (map (slice_at a) (seq 1 n')))
      by reflexivity.
    rewrite E. cbn [stack_arrays]. rewrite <- E.
    rewrite (@np_stack_same (m :: s) (arr_dtype a)).
    + cbn [bind result_monad ret]. f_equal. f_equal.
      unfold stack_of. rewrite length_map, length_seq, map_map.
      unfold slice_at at 1. cbn [arr_data]. rewrite Hs. cbn [tl].
      rewrite concat_chunks by exact Hlen.
      destruct a; cbn in *. subst. reflexivity.
    + discriminate.
    + apply Forall_forall. intros b Hb. apply in_map_iff in Hb.
      destruct Hb as [i [<- _]]. unfold slice_at. cbn. rewrite Hs.
      split; reflexivity.
Qed.


(** *** Pickling *)

Lemma dict_setitem_fresh {V} key (v : V) d :
  ~ In key (map fst d) -> dict_setitem key v d = d ++ [(key, v)].
Proof.
  induction d as [|[k x] d IH]; cbn; intros Hk; [reflexivity|].
  destruct (String.eqb_spec k key) as [->|_]; [tauto|].
  rewrite IH by tauto. reflexivity.
Qed.

Lemma dict_delitem_last {V} key (v : V) d :
  ~ In key (map fst d) -> dict_delitem key (d ++ [(key, v)]) = inr d.
Proof.
  induction d as [|[k x] d IH]; cbn; intros Hk.
  - rewrite String.eqb_refl. reflexivity.
  - destruct (String.eqb_spec k key) as [->|_]; [tauto|].
    rewrite IH by tauto. reflexivity.
Qed.

Lemma dict_delitem_absent {V} key (d : list (string * V)) :
  ~ In key (map fst d) -> dict_delitem key d = inl (KeyError key).
Proof.
  induction d as [|[k x] d IH]; cbn; intros Hk; [reflexivity|].
  destruct (String.eqb_spec k key) as [->|_]; [tauto|].
  rewrite IH by tauto. reflexivity.
Qed.

Lemma dict_update_fresh {V} (d : list (string * V)) : forall acc,
  NoDup (map fst (acc ++ d)) -> dict_update acc d = acc ++ d.
Proof.
  unfold dict_update.
  induction d as [|[k x] d IH]; intros acc Hnd; cbn [fold_left fst snd].
  - rewrite app_nil_r. reflexivity.
  - assert (Hk : ~ In k (map fst acc)).
    { rewrite map_app in Hnd. cbn in Hnd. apply NoDup_remove_2 in Hnd.
      intros Hin. apply Hnd. apply in_or_app. now left. }
    rewrite (dict_setitem_fresh k x acc Hk), IH.
    + rewrite <- app_assoc. reflexivity.
    + rewrite <- app_assoc. exact Hnd.
Qed.

(** X9.  Pickling round trip: for an instance dictionary without an entry
    named [__getattr__], [__setstate__] on a fresh instance (empty
    dictionary) with the state of [__getstate__] gives the instance the same
    dictionary, items and order, and the marker entry is gone from the
    state.  For a node as [__init__] leaves it this restores both fields. *)
Theorem pickling_round_trip (d : list (string * attribute St)) :
  NoDup (map fst d) -> ~ In "__getattr__"%string (map fst d) ->
  attribute_of "__getattr__" (__getstate__ d) = Some (AValue St (VInt 0)) /\
  __setstate__ [] (__getstate__ d) = inr (d, d) /\
  (forall node : Sequence St,
     d = instance_dict node -> node_of_dict d = Some node).
Proof.
  intros Hnd Hk. unfold __getstate__, __setstate__.
  rewrite (dict_setitem_fresh _ _ d Hk). split; [|split].
  - unfold attribute_of. clear Hnd.
    induction d as [|[k x] d IH]; cbn; [reflexivity|].
    destruct (String.eqb_spec k "__getattr__") as [->|_].
    + exfalso. apply Hk. now left.
    + apply IH. intros Hin. apply Hk. now right.
  - rewrite (dict_delitem_last _ _ d Hk). cbn [bind result_monad ret].
    rewrite dict_update_fresh by exact Hnd. reflexivity.
  - intros [f [l|]] ->; reflexivity.
Qed.

(** X10.  [__setstate__] on a state without the entry [__getattr__] raises
    [KeyError] for that name and does not touch the instance. *)
Theorem setstate_requires_marker (d state : list (string * attribute St)) :
  ~ In "__getattr__"%string (map fst state) ->
  __setstate__ d state = inl (KeyError "__getattr__").
Proof.
  intros Hk. unfold __setstate__. rewrite (dict_delitem_absent _ state Hk).
  reflexivity.
Qed.

(** *** Lists, tuples and arrays are interchangeable *)

(** X11.  The transposition sees a leaf only through the list of its
    elements: replacing every leaf (list, tuple or array with an axis) by
    the list of its elements does not change what the transposition returns
    or raises. *)
Theorem transpose_ignores_container_kind (example : value) :
  Forall (fun x => is_sequence_leaf x = true) (leaves example) ->
  _transpose_dict_list (map_leaves coerced example)
  = _transpose_dict_list example.
Proof.
  intros Hseq. rewrite (_transpose_dict_list_eq example Hseq).
  rewrite _transpose_dict_list_eq.
  - rewrite leaves_map_leaves by reflexivity. rewrite map_map.
    rewrite (map_ext (fun x => length (items_of (coerced x)))
                     (fun x => length (items_of x)))
      by reflexivity.
    destruct (check_lengths None _) as [e|[n|]]; try reflexivity.
    f_equal. unfold transposed. apply map_ext. intros i.
    unfold step_record. rewrite map_leaves_compose by reflexivity.
    reflexivity.
  - rewrite leaves_map_leaves by reflexivity.
    apply Forall_forall. intros x Hx. apply in_map_iff in Hx.
    destruct Hx as [y [<- _]]. reflexivity.
Qed.

(** *** Steps with different keys *)

Lemma dedup_In seen l k : In k l -> ~ In k seen -> In k (dedup seen l).
Proof.
  revert seen. induction l as [|x t IH]; intros seen; [intros []|].
  cbn. intros [->|Hin] Hs.
  - destruct (in_dec string_dec k seen); [contradiction | now left].
  - destruct (in_dec string_dec x seen) as [_|_]; [exact (IH _ Hin Hs)|].
    destruct (string_dec x k) as [->|Hne]; [now left|].
    right. apply IH; [exact Hin|]. intros [E|E]; [congruence | contradiction].
Qed.

Lemma mapM_result_first_error {A B} (f : A -> result B) (l : list A) :
  (exists x e, In x l /\ f x = inl e) ->
  exists x e, In x l /\ f x = inl e /\ mapM f l = inl e.
Proof.
  induction l as [|x t IH]; intros [y [e [Hin Hy]]]; [destruct Hin|].
  cbn [mapM]. destruct (f x) as [e0|b] eqn:Hx.
  - exists x, e0. split; [now left|]. split; [exact Hx | reflexivity].
  - destruct Hin as [->|Hin]; [congruence|].
    destruct (IH (ex_intro _ y (ex_intro _ e (conj Hin Hy))))
      as [z [e1 [Hz [Hfz Hm]]]].
    exists z, e1. split; [now right|]. split; [exact Hfz|].
    cbn [bind result_monad]. cbn in Hm. rewrite Hm. reflexivity.
Qed.

(** X12.  The merge does not drop or invent keys: when the steps are
    mappings and some key of one step is missing from another, the merge
    raises an exception and returns no result.  Which exception it is depends
    on the order in which the keys are visited, and is left open. *)
Theorem merge_rejects_divergent_keys (ds : list (list (string * value)))
    (k : string) (d1 d2 : list (string * value)) :
  In d1 ds -> In k (map fst d1) -> In d2 ds -> ~ In k (map fst d2) ->
  exists e, _stack_nested (map VDict ds) = inl e.
Proof.
  intros H1 Hk1 H2 Hk2.
  destruct ds as [|d0 ds']; [destruct H1|].
  set (ds := d0 :: ds') in *.
  change (map VDict ds) with (VDict d0 :: map VDict ds').
  rewrite _stack_nested_unfold.
  change (VDict d0 :: map VDict ds') with (map VDict ds).
  unfold zip_dict.
  rewrite (mapM_result_pure dict_items
             (fun v => match v with VDict d => d | _ => [] end));
    [|apply Forall_forall; intros v Hv; apply in_map_iff in Hv;
      destruct Hv as [d [<- _]]; reflexivity].
  rewrite map_map, map_id. cbn [bind result_monad].
  match goal with
  | |- context [mapM ?f (dedup _ _)] => set (F := f)
  end.
  assert (Hfail : exists x e, In x (dedup [] (concat (map (map fst) ds))) /\
                              F x = inl e).
  { exists k.
    assert (Hin : In k (dedup [] (concat (map (map fst) ds)))).
    { apply dedup_In; [|intros []]. apply in_concat.
      exists (map fst d1). split; [|exact Hk1]. apply in_map. exact H1. }
    unfold F.
    destruct (mapM (fun d => dict_getitem d k) (map VDict ds))
      as [e|vs] eqn:Hm.
    - exists e. split; [exact Hin | reflexivity].
    - exfalso. apply mapM_result_inputs in Hm. rewrite Forall_forall in Hm.
      destruct (Hm (VDict d2) (in_map VDict _ _ H2)) as [y Hy].
      rewrite dict_getitem_lookup in Hy.
      destruct (lookup k d2) as [x|] eqn:L; [|discriminate].
      apply Hk2. apply lookup_In in L. apply in_map_iff. exists (k, x). auto. }
  destruct (mapM_result_first_error F _ Hfail) as [k' [e [_ [_ Hm]]]].
  exists e. rewrite Hm. reflexivity.
Qed.

(** *** A sequence of sequences *)

(** X13.  Wrapping a [Sequence] node in another one prepends both lengths:
    for a feature described by a structure of tensor descriptions, the
    description of the outer node has, at every leaf, the outer length, then
    the inner length, then the shape of the feature's leaf, and the same
    element type; this holds for [get_tensor_info] and for
    [get_serialized_info]. *)
Theorem nested_sequence_description (feature : FeatureConnector St)
    (inner_length outer_length : option Z) (st : St) (calls : list value)
    (info : value) :
  is_description info = true ->
  let outer :=
    {| self := __init__ (as_feature (__init__ feature inner_length))
                        outer_length;
       inner := st; encoder_calls := calls |} in
  let both t := VInfo {| shape := outer_length :: inner_length :: shape t;
                         dtype := dtype t |} in
  (fc_get_tensor_info feature st = inr info ->
   get_tensor_info outer = (inr (map_description both info), outer)) /\
  (fc_get_serialized_info feature st = inr info ->
   get_serialized_info outer = (inr (map_description both info), outer)).
Proof.
  intros Hd outer both.
  set (g := fun t => {| shape := inner_length :: shape t; dtype := dtype t |}).
  assert (Hd' : is_description (map_description (fun t => VInfo (g t)) info)
                = true) by (apply is_description_map_description; exact Hd).
  split; intros Hinfo.
  - rewrite (@get_tensor_info_eq outer
               (map_description (fun t => VInfo (g t)) info)).
    + cbn [self _length outer __init__].
      unfold with_length. rewrite map_description_compose by exact Hd.
      reflexivity.
    + unfold outer, __init__, as_feature.
      cbn [self inner _feature fc_get_tensor_info].
      erewrite get_tensor_info_eq; [reflexivity | exact Hinfo | exact Hd].
    + exact Hd'.
  - rewrite (@get_serialized_info_eq outer
               (map_description (fun t => VInfo (g t)) info)).
    + cbn [self _length outer __init__].
      unfold with_length. rewrite map_description_compose by exact Hd.
      reflexivity.
    + unfold outer, __init__, as_feature.
      cbn [self inner _feature fc_get_serialized_info].
      erewrite get_serialized_info_eq; [reflexivity | exact Hinfo | exact Hd].
    + exact Hd'.
Qed.

End Properties.

(** ** The claims at concrete inputs *)

Section Examples.
#[local] Existing Instance example_numpy.
#[local] Existing Instance example_coerce.

(** C1 at the frame feature with length 3. *)
Lemma description_gains_length_dimension_witness :
  is_description example_info = true /\
  fc_get_tensor_info (_feature (self (example_world (Some 3%Z))))
    (inner (example_world (Some 3%Z))) = inr example_info /\
  fc_get_serialized_info (_feature (self (example_world (Some 3%Z))))
    (inner (example_world (Some 3%Z))) = inr example_info /\
  (exists out,
     get_tensor_info (example_world (Some 3%Z))
     = (inr out, example_world (Some 3%Z)) /\
     topology out = topology example_info /\
     forall path t,
       leaf_at path example_info = Some (VInfo t) ->
       leaf_at path out
       = Some (VInfo {| shape := Some 3%Z :: shape t; dtype := dtype t |})) /\
  (exists out,
     get_serialized_info (example_world (Some 3%Z))
     = (inr out, example_world (Some 3%Z)) /\
     topology out = topology example_info /\
     forall path t,
       leaf_at path example_info = Some (VInfo t) ->
       leaf_at path out
       = Some (VInfo {| shape := Some 3%Z :: shape t; dtype := dtype t |})).
Proof.
  destruct (description_gains_length_dimension
              (example_world (Some 3%Z)) example_info eq_refl) as [A B].
  split; [reflexivity|]. split; [reflexivity|]. split; [reflexivity|].
  split; [exact (A eq_refl) | exact (B eq_refl)].
Defined.

Lemma frame_sig_wf : wf_sig frame_sig.
Proof.
  constructor.
  - constructor; [intros [] | constructor].
  - repeat constructor.
Qed.

Lemma two_records_sig : Forall (has_sig frame_sig) two_records.
Proof. repeat constructor. Qed.

(** C2, amended, at two frames. *)
Lemma merge_stacks_per_leaf_witness :
  wf_sig frame_sig /\ two_records <> [] /\
  Forall (has_sig frame_sig) two_records /\
  exists out,
    _stack_nested two_records = inr out /\
    stacked frame_sig two_records out /\
    Forall (fun step => topology out = topology step) two_records.
Proof.
  assert (N : two_records <> []) by discriminate.
  split; [exact frame_sig_wf|]. split; [exact N|].
  split; [exact two_records_sig|].
  exact (merge_stacks_per_leaf frame_sig_wf N two_records_sig).
Defined.

(** C2 as stated fails on arrays of different shapes: the per-step values
    are arrays, and the merge raises instead of producing an array. *)
Lemma merge_stacks_per_leaf_counterexample :
  Forall (fun v => type_of v = TNdarray) ragged /\
  _stack_nested ragged
  = inl (ValueError (MsgText "all input arrays must have the same shape")).
Proof. split; [repeat constructor | reflexivity]. Qed.

(** C3 at leaves of lengths 3 and 5, and at two frames against a static
    length of 5. *)
Lemma encode_example_enforces_lengths_witness :
  (Forall (fun x => is_sequence_leaf x = true) (leaves uneven) /\
   map (fun x => length (items_of x)) (leaves uneven) = [3; 5] /\
   encode_example uneven (example_world None)
   = (inl (ValueError (MsgElemLength 3 5)), example_world None)) /\
  (Forall (fun x => is_sequence_leaf x = true) (leaves two_frames) /\
   map (fun x => length (items_of x)) (leaves two_frames) = [2] /\
   (exists records,
      _transpose_dict_list two_frames = inr records /\ length records = 2) /\
   encode_example two_frames (example_world (Some 5%Z))
   = (inl (ValueError (MsgStaticLength 2 5)), example_world (Some 5%Z))).
Proof.
  assert (S1 : Forall (fun x => is_sequence_leaf x = true) (leaves uneven))
    by (repeat constructor).
  assert (S2 : Forall (fun x => is_sequence_leaf x = true) (leaves two_frames))
    by (repeat constructor).
  split.
  - split; [exact S1|]. split; [reflexivity|].
    destruct (encode_example_enforces_lengths (example_world None) uneven
                (n := 3) (rest := [5]) S1 eq_refl) as [A _].
    apply (A [] 5 []); [reflexivity | constructor | lia].
  - split; [exact S2|]. split; [reflexivity|].
    destruct (encode_example_enforces_lengths (example_world (Some 5%Z))
                two_frames (n := 2) (rest := []) S2 eq_refl) as [_ B].
    destruct (B (Forall_nil _)) as [R L].
    split; [exact R|]. apply L; [reflexivity | lia].
Defined.

Lemma example_info_dims :
  forall t, In (VInfo t) (leaves example_info) -> known_dims_nonneg t.
Proof.
  intros t [E|[]]. injection E as <-.
  constructor; [cbn; lia | constructor].
Qed.

(** C4, amended, at an empty list of frames and no static length. *)
Lemma encode_example_empty_sequence_witness :
  _transpose_dict_list no_frame = inr [] /\
  (_length (self (example_world None)) = None \/
   _length (self (example_world None)) = Some 0%Z) /\
  fc_get_serialized_info (_feature (self (example_world None)))
    (inner (example_world None)) = inr example_info /\
  is_description example_info = true /\
  (forall t, In (VInfo t) (leaves example_info) -> known_dims_nonneg t) /\
  exists serialized_info out,
    get_serialized_info (example_world None)
    = (inr serialized_info, example_world None) /\
    encode_example no_frame (example_world None)
    = (inr out, example_world None) /\
    topology out = topology serialized_info /\
    forall path t,
      leaf_at path serialized_info = Some (VInfo t) ->
      leaf_at path out = Some (VArray (empty_array t)).
Proof.
  split; [reflexivity|]. split; [left; reflexivity|].
  split; [reflexivity|]. split; [reflexivity|].
  split; [exact example_info_dims|].
  exact (encode_example_empty_sequence (example_world None) no_frame
           (info := example_info) eq_refl (or_introl eq_refl) eq_refl eq_refl
           example_info_dims).
Defined.

(** C4 as stated fails when a static length other than zero is configured:
    the realized length is zero, and [encode_example] raises. *)
Lemma encode_example_empty_sequence_counterexample :
  _transpose_dict_list no_frame = inr [] /\
  encode_example no_frame (example_world (Some 5%Z))
  = (inl (ValueError (MsgStaticLength 0 5)), example_world (Some 5%Z)).
Proof. split; reflexivity. Qed.

Lemma example_info_describes : describes example_info frame_sig.
Proof.
  constructor. constructor; [|constructor]. split; [reflexivity|].
  exact (describes_leaf {| shape := [Some 2%Z]; dtype := int64 |} [2]).
Qed.

Lemma two_records_identity :
  Forall2 (fun r e : value => @inr exn value r = inr e) two_records two_records.
Proof. repeat constructor. Qed.

Lemma encoded_records_sig : Forall (has_sig frame_sig) encoded_records.
Proof. repeat constructor. Qed.

Lemma float_sig_wf : wf_sig float_sig.
Proof.
  constructor.
  - constructor; [intros [] | constructor].
  - repeat constructor.
Qed.

Lemma decoded_records_sig : Forall (has_sig float_sig) decoded_records.
Proof. repeat constructor. Qed.

Lemma codec_info_describes : describes codec_info float_sig.
Proof.
  constructor. constructor; [|constructor]. split; [reflexivity|].
  exact (describes_leaf {| shape := [Some 2%Z]; dtype := float64 |} [2]).
Qed.

Lemma codec_encodes :
  Forall2 (fun r e =>
             fc_encode_example (_feature (self codec_world))
               (inner codec_world) r = inr e)
          two_records encoded_records.
Proof. repeat constructor. Qed.

Lemma codec_decodes :
  Forall2 (fun e d =>
             fc_decode_example (_feature (self codec_world))
               (inner codec_world) e = inr d)
          encoded_records decoded_records.
Proof. repeat constructor. Qed.

(** C5, amended, at two frames and a feature that encodes by adding one and
    decodes by doubling into floats. *)
Lemma decode_encode_commutes_with_sequencing_witness :
  _transpose_dict_list two_frames = inr two_records /\
  two_records <> [] /\
  length_ok codec_world (length two_records) /\
  Forall2 (fun r e =>
             fc_encode_example (_feature (self codec_world))
               (inner codec_world) r = inr e)
          two_records encoded_records /\
  wf_sig frame_sig /\ array_sig frame_sig /\ sig_leaves frame_sig <> 0 /\
  Forall (has_sig frame_sig) encoded_records /\
  Forall2 (fun e d =>
             fc_decode_example (_feature (self codec_world))
               (inner codec_world) e = inr d)
          encoded_records decoded_records /\
  wf_sig float_sig /\ Forall (has_sig float_sig) decoded_records /\
  fc_get_tensor_info (_feature (self codec_world)) (inner codec_world)
  = inr codec_info /\
  describes codec_info float_sig /\
  exists enc w' out,
    encode_example two_frames codec_world = (inr enc, w') /\
    decode_example enc w' = (inr out, w') /\
    forall i r,
      nth_error two_records i = Some r ->
      exists e d,
        fc_encode_example (_feature (self codec_world))
          (inner codec_world) r = inr e /\
        fc_decode_example (_feature (self codec_world))
          (inner codec_world) e = inr d /\
        nest_map (read_slice i) out = inr d /\
        topology out = topology d.
Proof.
  assert (N : two_records <> []) by discriminate.
  assert (A : array_sig frame_sig) by (repeat constructor).
  assert (L : sig_leaves frame_sig <> 0) by discriminate.
  split; [reflexivity|]. split; [exact N|]. split; [exact I|].
  split; [exact codec_encodes|]. split; [exact frame_sig_wf|].
  split; [exact A|]. split; [exact L|]. split; [exact encoded_records_sig|].
  split; [exact codec_decodes|]. split; [exact float_sig_wf|].
  split; [exact decoded_records_sig|]. split; [reflexivity|].
  split; [exact codec_info_describes|].
  exact (decode_encode_commutes_with_sequencing codec_world
           two_frames (info := codec_info) (records := two_records)
           (encs := encoded_records) (decs := decoded_records)
           (te := frame_sig) (td := float_sig)
           eq_refl N I codec_encodes frame_sig_wf A L encoded_records_sig
           codec_decodes float_sig_wf decoded_records_sig eq_refl
           codec_info_describes).
Defined.

(** C5 as stated fails when the wrapped encoder returns values that are not
    arrays.  Three labels are valid records of the label feature: each is
    encoded to its index and that index is decoded.  [encode_example] merges
    the three indices into a plain list, and [decode_example] applied to that
    result raises: what [tf.map_fn] finds under the key are three tensors
    without axes, not one tensor with the sequence as first axis. *)
Lemma decode_encode_commutes_with_sequencing_counterexample :
  _transpose_dict_list three_labels = inr three_label_records /\
  Forall (fun r =>
            exists e d,
              fc_encode_example (_feature (self label_world))
                (inner label_world) r = inr e /\
              fc_decode_example (_feature (self label_world))
                (inner label_world) e = inr d)
         three_label_records /\
  encode_example three_labels label_world
  = (inr (VDict [("label"%string, VList [VInt 0; VInt 1; VInt 0])]),
     {| self := self label_world; inner := inner label_world;
        encoder_calls := rev three_label_records |}) /\
  decode_example (VDict [("label"%string, VList [VInt 0; VInt 1; VInt 0])])
    {| self := self label_world; inner := inner label_world;
       encoder_calls := rev three_label_records |}
  = (inl (ValueError (MsgText "elems must be a 1+ dimensional tensor")),
     {| self := self label_world; inner := inner label_world;
        encoder_calls := rev three_label_records |}).
Proof.
  split; [reflexivity|]. split; [|split; reflexivity].
  repeat constructor.
  - exists (VDict [("label"%string, VInt 0)]),
           (VDict [("label"%string, VInt 0)]). split; reflexivity.
  - exists (VDict [("label"%string, VInt 1)]),
           (VDict [("label"%string, VInt 1)]). split; reflexivity.
  - exists (VDict [("label"%string, VInt 0)]),
           (VDict [("label"%string, VInt 0)]). split; reflexivity.
Qed.

(** C6, amended, at a structure with a number for a leaf. *)
Lemma np_to_list_accepts_sequences_witness :
  leaves with_number = [VList [VInt 0; VInt 1]] ++ VInt 7 :: [] /\
  Forall (fun x => is_sequence_leaf x = true) [VList [VInt 0; VInt 1]] /\
  type_of (VInt 7) <> TList /\ type_of (VInt 7) <> TTuple /\
  type_of (VInt 7) <> TNdarray /\
  encode_example with_number (example_world None)
  = (inl (ValueError (MsgNotSequence TInt)), example_world None).
Proof.
  assert (S : Forall (fun x => is_sequence_leaf x = true)
                [VList [VInt 0; VInt 1]]) by (repeat constructor).
  split; [reflexivity|]. split; [exact S|].
  split; [discriminate|]. split; [discriminate|]. split; [discriminate|].
  apply (proj2 (np_to_list_accepts_sequences unit) (example_world None)
           with_number [VList [VInt 0; VInt 1]] (VInt 7) []);
    [reflexivity | exact S | discriminate | discriminate | discriminate].
Defined.

(** C6 as stated fails on an array without axes: it is an array, and it is
    not turned into a list; iterating over it raises numpy's [TypeError]. *)
Lemma np_to_list_accepts_sequences_counterexample :
  type_of zero_d = TNdarray /\
  np_to_list zero_d = inl (TypeError (MsgText "iteration over a 0-d array")) /\
  encode_example zero_d (example_world None)
  = (inl (TypeError (MsgText "iteration over a 0-d array")),
     example_world None).
Proof. repeat split. Qed.

(** C9 with an array in first and in second place. *)
Lemma stack_arrays_decides_on_first_witness :
  (VArray (frame 1 2) = VArray (frame 1 2) /\
   stack_arrays [VArray (frame 1 2); VInt 7]
   = (r <- np_stack [VArray (frame 1 2); VInt 7] ;; ret (VArray r))) /\
  (type_of (VInt 7) <> TNdarray /\
   stack_arrays [VInt 7; VArray (frame 1 2)]
   = inr (VList [VInt 7; VArray (frame 1 2)])) /\
  (type_of (VInt 7) <> TDict /\
   _stack_nested [VInt 7; VArray (frame 1 2)]
   = stack_arrays [VInt 7; VArray (frame 1 2)]).
Proof.
  split; [|split].
  - split; [reflexivity|].
    exact (proj1 (stack_arrays_decides_on_first (VArray (frame 1 2)) [VInt 7])
             (frame 1 2) eq_refl).
  - assert (T : type_of (VInt 7) <> TNdarray) by discriminate.
    split; [exact T|].
    exact (proj1 (proj2 (stack_arrays_decides_on_first
                           (VInt 7) [VArray (frame 1 2)])) T).
  - assert (T : type_of (VInt 7) <> TDict) by discriminate.
    split; [exact T|].
    exact (proj2 (proj2 (stack_arrays_decides_on_first
                           (VInt 7) [VArray (frame 1 2)])) T).
Defined.

(** C10 at the empty mapping, with a static length configured. *)
Lemma encode_example_without_leaf_witness :
  leaves (VDict []) = [] /\
  encode_example (VDict []) (example_world (Some 5%Z))
  = (inl (TypeError
            (MsgText "'NoneType' object cannot be interpreted as an integer")),
     example_world (Some 5%Z)).
Proof.
  split; [reflexivity|].
  exact (encode_example_without_leaf (example_world (Some 5%Z)) (VDict [])
           eq_refl).
Defined.

(** X2 at two leaves of three values. *)
Lemma transpose_reads_leaves_in_lock_step_witness :
  leaves labels <> [] /\
  Forall (fun x => is_sequence_leaf x = true /\ length (items_of x) = 3)
         (leaves labels) /\
  exists records,
    _transpose_dict_list labels = inr records /\
    length records = 3 /\
    forall i record,
      nth_error records i = Some record ->
      forall path x,
        leaf_at path labels = Some x ->
        at_path path record = nth_error (items_of x) i.
Proof.
  assert (N : leaves labels <> []) by discriminate.
  assert (F : Forall (fun x => is_sequence_leaf x = true /\
                               length (items_of x) = 3) (leaves labels))
    by (repeat constructor).
  split; [exact N|]. split; [exact F|].
  exact (transpose_reads_leaves_in_lock_step labels N F).
Defined.

(** X3 at two frames. *)
Lemma encode_example_success_requires_witness :
  encode_example two_frames (example_world None)
  = (inr (VDict [("frame"%string,
                  VArray {| arr_dtype := int64; arr_shape := [2; 2];
                            arr_data := [1; 2; 3; 4]%Z |})]),
     {| self := __init__ example_feature None; inner := tt;
        encoder_calls := rev two_records |}) /\
  exists n,
    leaves two_frames <> [] /\
    Forall (fun x => is_sequence_leaf x = true /\ length (items_of x) = n)
           (leaves two_frames) /\
    _transpose_dict_list two_frames = inr (transposed two_frames n) /\
    length_ok (example_world None) n.
Proof.
  assert (E : encode_example two_frames (example_world None)
              = (inr (VDict [("frame"%string,
                              VArray {| arr_dtype := int64;
                                        arr_shape := [2; 2];
                                        arr_data := [1; 2; 3; 4]%Z |})]),
                 {| self := __init__ example_feature None; inner := tt;
                    encoder_calls := rev two_records |}))
    by reflexivity.
  split; [exact E|].
  exact (encode_example_success_requires (example_world None) two_frames E).
Defined.

(** X4 at two frames. *)
Lemma encode_example_encodes_each_record_once_witness :
  _transpose_dict_list two_frames = inr two_records /\
  two_records <> [] /\
  length_ok (example_world None) (length two_records) /\
  Forall2 (fun r e =>
             fc_encode_example (_feature (self (example_world None)))
               (inner (example_world None)) r = inr e)
          two_records two_records /\
  encode_example two_frames (example_world None)
  = (_stack_nested two_records,
     {| self := self (example_world None);
        inner := inner (example_world None);
        encoder_calls := rev two_records ++ encoder_calls (example_world None)
     |}).
Proof.
  assert (N : two_records <> []) by discriminate.
  split; [reflexivity|]. split; [exact N|]. split; [exact I|].
  split; [exact two_records_identity|].
  exact (encode_example_encodes_each_record_once (example_world None)
           two_frames (records := two_records) (encs := two_records)
           eq_refl N I two_records_identity).
Defined.

(** X5 at an encoder that accepts arrays only and a number in second
    place. *)
Lemma encode_example_propagates_encoder_error_witness :
  _transpose_dict_list
    (VList [VArray (frame 1 2); VInt 7; VArray (frame 3 4)])
  = inr ([VArray (frame 1 2)] ++ VInt 7 :: [VArray (frame 3 4)]) /\
  length_ok strict_world
    (length ([VArray (frame 1 2)] ++ VInt 7 :: [VArray (frame 3 4)])) /\
  Forall2 (fun r e =>
             fc_encode_example (_feature (self strict_world))
               (inner strict_world) r = inr e)
          [VArray (frame 1 2)] [VArray (frame 1 2)] /\
  fc_encode_example (_feature (self strict_world)) (inner strict_world)
    (VInt 7) = inl (ValueError (MsgText "not an array")) /\
  encode_example (VList [VArray (frame 1 2); VInt 7; VArray (frame 3 4)])
    strict_world
  = (inl (ValueError (MsgText "not an array")),
     {| self := self strict_world; inner := inner strict_world;
        encoder_calls :=
          VInt 7 :: rev [VArray (frame 1 2)] ++ encoder_calls strict_world |}).
Proof.
  assert (F : Forall2 (fun r e =>
                fc_encode_example (_feature (self strict_world))
                  (inner strict_world) r = inr e)
                [VArray (frame 1 2)] [VArray (frame 1 2)])
    by (repeat constructor).
  split; [reflexivity|]. split; [exact I|]. split; [exact F|].
  split; [reflexivity|].
  exact (encode_example_propagates_encoder_error strict_world
           (VList [VArray (frame 1 2); VInt 7; VArray (frame 3 4)])
           (pre := [VArray (frame 1 2)]) [VArray (frame 3 4)]
           (encs := [VArray (frame 1 2)]) (VInt 7)
           eq_refl I F eq_refl).
Defined.

Lemma labels_unique_keys : unique_keys labels.
Proof.
  apply unique_keys_dict.
  - cbn. constructor; [intros [E|[]]; discriminate|].
    constructor; [intros [] | constructor].
  - repeat constructor.
Qed.

Lemma labels_raw :
  Forall (fun x => is_sequence_leaf x = true /\ length (items_of x) = 3 /\
                   Forall is_raw (items_of x))
         (leaves labels).
Proof.
  repeat constructor; discriminate.
Qed.

(** X6 at two leaves of three values. *)
Lemma transpose_then_merge_witness :
  unique_keys labels /\ 0 < 3 /\ leaves labels <> [] /\
  Forall (fun x => is_sequence_leaf x = true /\ length (items_of x) = 3 /\
                   Forall is_raw (items_of x))
         (leaves labels) /\
  exists records,
    _transpose_dict_list labels = inr records /\
    _stack_nested records = inr (map_leaves coerced labels).
Proof.
  assert (P : 0 < 3) by lia.
  assert (N : leaves labels <> []) by discriminate.
  split; [exact labels_unique_keys|]. split; [exact P|]. split; [exact N|].
  split; [exact labels_raw|].
  exact (transpose_then_merge labels_unique_keys P N labels_raw).
Defined.

(** X7 at a two by two array. *)
Lemma array_unstack_then_stack_witness :
  arr_shape matrix = [2; 2] /\ 0 < 2 /\
  length (arr_data matrix) = size [2; 2] /\
  exists l,
    np_to_list (VArray matrix) = inr (VList l) /\
    length l = 2 /\
    stack_arrays l = inr (VArray matrix).
Proof.
  assert (P : 0 < 2) by lia.
  split; [reflexivity|]. split; [exact P|]. split; [reflexivity|].
  exact (array_unstack_then_stack matrix (n := 2) (m := 2) (s := [])
           eq_refl P eq_refl).
Defined.


Lemma example_dict_keys :
  NoDup (map fst (instance_dict (__init__ example_feature (Some 3%Z)))) /\
  ~ In "__getattr__"%string
       (map fst (instance_dict (__init__ example_feature (Some 3%Z)))).
Proof.
  split.
  - cbn. constructor; [intros [E|[]]; discriminate|].
    constructor; [intros [] | constructor].
  - cbn. intros [E|[E|[]]]; discriminate.
Qed.

(** X9 at the frame node of length 3. *)
Lemma pickling_round_trip_witness :
  NoDup (map fst (instance_dict (__init__ example_feature (Some 3%Z)))) /\
  ~ In "__getattr__"%string
       (map fst (instance_dict (__init__ example_feature (Some 3%Z)))) /\
  attribute_of "__getattr__"
    (__getstate__ (instance_dict (__init__ example_feature (Some 3%Z))))
  = Some (AValue unit (VInt 0)) /\
  __setstate__ []
    (__getstate__ (instance_dict (__init__ example_feature (Some 3%Z))))
  = inr (instance_dict (__init__ example_feature (Some 3%Z)),
         instance_dict (__init__ example_feature (Some 3%Z))) /\
  node_of_dict (instance_dict (__init__ example_feature (Some 3%Z)))
  = Some (__init__ example_feature (Some 3%Z)).
Proof.
  destruct example_dict_keys as [N K].
  destruct (pickling_round_trip _ N K) as [A [B C]].
  split; [exact N|]. split; [exact K|]. split; [exact A|].
  split; [exact B|]. exact (C _ eq_refl).
Defined.

(** X10 at a dictionary that was never through [__getstate__]. *)
Lemma setstate_requires_marker_witness :
  ~ In "__getattr__"%string
       (map fst (instance_dict (__init__ example_feature (Some 3%Z)))) /\
  __setstate__ [] (instance_dict (__init__ example_feature (Some 3%Z)))
  = inl (KeyError "__getattr__").
Proof.
  destruct example_dict_keys as [_ K]. split; [exact K|].
  exact (setstate_requires_marker [] _ K).
Defined.

(** X11 at a list and a tuple. *)
Lemma transpose_ignores_container_kind_witness :
  Forall (fun x => is_sequence_leaf x = true) (leaves labels) /\
  _transpose_dict_list (map_leaves coerced labels)
  = _transpose_dict_list labels.
Proof.
  assert (F : Forall (fun x => is_sequence_leaf x = true) (leaves labels))
    by (repeat constructor).
  split; [exact F|]. exact (transpose_ignores_container_kind labels F).
Defined.

(** X12 at two steps, the first with an array under [a] and a number under
    [b], the second with an array of another length under [a] alone. *)
Lemma merge_rejects_divergent_keys_witness :
  In [("a"%string, VArray (frame 0 1)); ("b"%string, VInt 1)]
     [[("a"%string, VArray (frame 0 1)); ("b"%string, VInt 1)];
      [("a"%string, VArray triple)]] /\
  In "b"%string
     (map fst [("a"%string, VArray (frame 0 1)); ("b"%string, VInt 1)]) /\
  In [("a"%string, VArray triple)]
     [[("a"%string, VArray (frame 0 1)); ("b"%string, VInt 1)];
      [("a"%string, VArray triple)]] /\
  ~ In "b"%string (map fst [("a"%string, VArray triple)]) /\
  exists e,
    _stack_nested
      (map VDict [[("a"%string, VArray (frame 0 1)); ("b"%string, VInt 1)];
                  [("a"%string, VArray triple)]])
    = inl e.
Proof.
  assert (H1 : In [("a"%string, VArray (frame 0 1)); ("b"%string, VInt 1)]
                  [[("a"%string, VArray (frame 0 1)); ("b"%string, VInt 1)];
                   [("a"%string, VArray triple)]])
    by (now left).
  assert (K1 : In "b"%string
                  (map fst [("a"%string, VArray (frame 0 1));
                            ("b"%string, VInt 1)]))
    by (right; now left).
  assert (H2 : In [("a"%string, VArray triple)]
                  [[("a"%string, VArray (frame 0 1)); ("b"%string, VInt 1)];
                   [("a"%string, VArray triple)]])
    by (right; now left).
  assert (K2 : ~ In "b"%string (map fst [("a"%string, VArray triple)]))
    by (intros [E|[]]; discriminate).
  split; [exact H1|]. split; [exact K1|]. split; [exact H2|].
  split; [exact K2|].
  exact (merge_rejects_divergent_keys _ _ _ _ H1 K1 H2 K2).
Defined.

(** X13 at three sequences of frames of unknown length. *)
Lemma nested_sequence_description_witness :
  is_description example_info = true /\
  fc_get_tensor_info example_feature tt = inr example_info /\
  get_tensor_info
    {| self := __init__ (as_feature (__init__ example_feature None))
                        (Some 3%Z);
       inner := tt; encoder_calls := [] |}
  = (inr (VDict [("frame"%string,
                  VInfo {| shape := [Some 3%Z; None; Some 2%Z];
                           dtype := int64 |})]),
     {| self := __init__ (as_feature (__init__ example_feature None))
                         (Some 3%Z);
        inner := tt; encoder_calls := [] |}).
Proof.
  split; [reflexivity|]. split; [reflexivity|].
  exact (proj1 (nested_sequence_description example_feature None (Some 3%Z)
                  tt [] example_info eq_refl) eq_refl).
Defined.

End Examples.
